(** * Perplexity source tracker: domain categorisation, tag store and run recorder

    A shallow embedding of the server module ([server.js]): the string helpers
    it relies on, the parent-domain and category resolvers, the cost
    estimator, and the request handlers that read and write the relational
    store, followed by the properties established for them.

    Modelling conventions.
    - A JavaScript string is a list of code units, [list ascii]; the model is
      faithful on ASCII text (hostnames produced by the URL parser are ASCII).
    - A table of the store is the list of its rows in rowid order.
    - A handler is a function from the store (and the request) to a response
      and the store it leaves behind. *)

From Stdlib Require Import String Ascii List Bool Arith ZArith QArith Qabs Qround Lia.
Import ListNotations.

Open Scope nat_scope.
Open Scope list_scope.

(* ================================================================== *)
(** ** JavaScript strings and arrays *)
(* ================================================================== *)

Module Js.

Definition jsstring := list ascii.

(** A string literal of the source. *)
Definition str (s : string) : jsstring := list_ascii_of_string s.

(** [a === b] on strings. *)
Fixpoint streq (a b : jsstring) : bool :=
  match a, b with
  | [], [] => true
  | x :: a', y :: b' => Ascii.eqb x y && streq a' b'
  | _, _ => false
  end.

(** One code unit of [String.prototype.toLowerCase] (ASCII letters). *)
Definition lowerChar (c : ascii) : ascii :=
  let n := nat_of_ascii c in
  if (65 <=? n) && (n <=? 90) then ascii_of_nat (n + 32) else c.

Definition toLowerCase (s : jsstring) : jsstring := map lowerChar s.

(** White space removed by [String.prototype.trim] (ASCII range): TAB, LF,
    VT, FF, CR and SPACE. *)
Definition isSpace (c : ascii) : bool :=
  let n := nat_of_ascii c in
  ((9 <=? n) && (n <=? 13)) || (n =? 32).

Fixpoint trimStart (s : jsstring) : jsstring :=
  match s with
  | c :: s' => if isSpace c then trimStart s' else s
  | [] => []
  end.

Definition trimEnd (s : jsstring) : jsstring := rev (trimStart (rev s)).

Definition trim (s : jsstring) : jsstring := trimEnd (trimStart s).

(** [s.startsWith(p)]. *)
Fixpoint startsWith (s p : jsstring) : bool :=
  match p, s with
  | [], _ => true
  | y :: p', x :: s' => Ascii.eqb x y && startsWith s' p'
  | _ :: _, [] => false
  end.

(** [s.endsWith(t)]: the last [t.length] code units of [s] are [t]. *)
Definition endsWith (s t : jsstring) : bool :=
  (length t <=? length s) && streq (skipn (length s - length t) s) t.

(** [s.replace(/^www\./, '')]. *)
Definition stripWww (s : jsstring) : jsstring :=
  if startsWith s (str "www.") then skipn 4 s else s.

(** [s.split(sep)] for a one-character separator: never the empty array. *)
Fixpoint split (sep : ascii) (s : jsstring) : list jsstring :=
  match s with
  | [] => [[]]
  | c :: s' =>
      if Ascii.eqb c sep then [] :: split sep s'
      else match split sep s' with
           | p :: ps => (c :: p) :: ps
           | [] => [[c]]
           end
  end.

(** [parts.join(sep)]. *)
Fixpoint join (sep : ascii) (parts : list jsstring) : jsstring :=
  match parts with
  | [] => []
  | [p] => p
  | p :: ps => p ++ sep :: join sep ps
  end.

(** [arr.slice(-n)]: the start index is [max (length - n) 0]. *)
Definition sliceLast {A} (n : nat) (arr : list A) : list A :=
  skipn (length arr - n) arr.

End Js.

Import Js.

(* ================================================================== *)
(** ** Parent-domain resolver *)
(* ================================================================== *)

Module Domain.

Definition dot : ascii := "."%char.

(** Compound TLDs where the last two parts are the TLD, not the domain. *)
Definition COMPOUND_TLDS : list jsstring :=
  map str
    [ "co.uk"; "co.jp"; "co.kr"; "co.nz"; "co.za"; "co.in"; "co.id";
      "com.au"; "com.br"; "com.cn"; "com.mx"; "com.sg"; "com.tw"; "com.hk";
      "org.uk"; "net.au"; "ac.uk"; "gov.uk" ]%string.

(** [COMPOUND_TLDS.has(x)]. *)
Definition COMPOUND_TLDS_has (x : jsstring) : bool :=
  existsb (streq x) COMPOUND_TLDS.

Definition getParentDomain (domain : jsstring) : jsstring :=
  let parts := split dot domain in
  if length parts <=? 2 then domain
  else
    let lastTwo := join dot (sliceLast 2 parts) in
    if COMPOUND_TLDS_has lastTwo && (3 <? length parts)
    then join dot (sliceLast 3 parts)
    else join dot (sliceLast 2 parts).

(** The labels of a domain and its last [n] labels joined, as the
    specification words them. *)
Definition labels (d : jsstring) : list jsstring := split dot d.

Definition lastLabels (n : nat) (d : jsstring) : jsstring :=
  join dot (rev (firstn n (rev (labels d)))).

End Domain.

Import Domain.

(* ================================================================== *)
(** ** Cost estimator *)
(* ================================================================== *)

Module Cost.

Local Open Scope Q_scope.

(** A JavaScript number: [NaN] or a finite value.  Finite values are exact
    rationals; the rounding error of IEEE doubles is not modelled. *)
Inductive jsnum : Type :=
  | NaN
  | Num (q : Q).

Definition jsadd (a b : jsnum) : jsnum :=
  match a, b with
  | Num x, Num y => Num (x + y)
  | _, _ => NaN
  end.

Definition jsmul (a b : jsnum) : jsnum :=
  match a, b with
  | Num x, Num y => Num (x * y)
  | _, _ => NaN
  end.

(** What a property read on the pricing table can give: one of the table's
    own rows, or a member inherited from [Object.prototype] (a function or
    an object: truthy, and without [input] and [output] properties). *)
Inductive property : Type :=
  | Pricing (input output : Q)
  | Inherited.

(** Model pricing per million tokens. *)
Definition MODEL_PRICING : list (jsstring * property) :=
  [ (str "sonar", Pricing 1 1);
    (str "sonar-pro", Pricing 3 15);
    (str "sonar-reasoning", Pricing 1 5);
    (str "sonar-reasoning-pro", Pricing 2 8) ].

(** The property names every object literal inherits. *)
Definition OBJECT_PROTOTYPE : list jsstring :=
  map str
    [ "constructor"; "__proto__"; "hasOwnProperty"; "isPrototypeOf";
      "propertyIsEnumerable"; "toLocaleString"; "toString"; "valueOf";
      "__defineGetter__"; "__defineSetter__"; "__lookupGetter__";
      "__lookupSetter__" ]%string.

Fixpoint ownProperty (table : list (jsstring * property)) (key : jsstring)
  : option property :=
  match table with
  | [] => None
  | (k, v) :: rest => if streq k key then Some v else ownProperty rest key
  end.

(** [MODEL_PRICING[key]]: own property first, then the prototype; [None] is
    [undefined]. *)
Definition getProperty (key : jsstring) : option property :=
  match ownProperty MODEL_PRICING key with
  | Some v => Some v
  | None => if existsb (streq key) OBJECT_PROTOTYPE then Some Inherited else None
  end.

(** [pricing.input] and [pricing.output] as operands of [*]: a missing
    property reads [undefined], which arithmetic turns into [NaN]. *)
Definition inputOf (p : property) : jsnum :=
  match p with Pricing i _ => Num i | Inherited => NaN end.

Definition outputOf (p : property) : jsnum :=
  match p with Pricing _ o => Num o | Inherited => NaN end.

(** Rounding to six decimals: the nearest multiple of 10^-6, ties to the
    larger magnitude. *)
Definition round6 (q : Q) : Q :=
  let n := Qfloor (Qabs q * 1000000 + (1 # 2)) in
  (if Qle_bool 0 q then 1 else -1) * (inject_Z n / 1000000).

(** [+x.toFixed(6)]: values of magnitude 10^21 and more print in full, the
    others rounded to six decimals.  The number read back is kept in lowest
    terms. *)
Definition toFixed6 (x : jsnum) : jsnum :=
  match x with
  | NaN => NaN
  | Num q =>
      if Qle_bool (10 ^ 21) (Qabs q) then Num (Qred q)
      else Num (Qred (round6 q))
  end.

Definition estimateCost (model : jsstring) (queryCount : Q) : jsnum :=
  let pricing :=
    match getProperty model with
    | Some p => p
    | None => Pricing 1 1 (* MODEL_PRICING['sonar'] *)
    end in
  let avgInputTokens := 200 in
  let avgOutputTokens := 500 in
  let costPerQuery :=
    jsadd (jsmul (Num (avgInputTokens / 1000000)) (inputOf pricing))
          (jsmul (Num (avgOutputTokens / 1000000)) (outputOf pricing)) in
  toFixed6 (jsmul costPerQuery (Num queryCount)).


End Cost.

Import Cost.

(* ================================================================== *)
(** ** The relational store *)
(* ================================================================== *)

Module Db.

(** Rows of the five tables.  Row ids are SQLite rowids; the [created_at]
    and [updated_at] columns are left out (no handler modelled here reads
    them). *)
Record Client : Type := mkClient
  { client_id : nat;
    client_name : jsstring;
    client_owned_domains : list jsstring (* the parsed JSON array *) }.

Record Query : Type := mkQuery
  { query_id : nat;
    query_client_id : nat;
    query_text : jsstring }.

Record Run : Type := mkRun
  { run_id : nat;
    run_query_id : nat;
    run_raw_response : jsstring;
    run_response_text : jsstring;
    run_model : jsstring;
    run_cost_estimate : jsnum;
    run_citation_count : nat;
    run_owned_citation_count : nat }.

Record Citation : Type := mkCitation
  { cit_id : nat;
    cit_run_id : nat;
    cit_url : jsstring;
    cit_domain : jsstring;
    cit_position : nat;
    cit_category : jsstring }.

Record DomainTag : Type := mkTag
  { tag_id : nat;
    tag_domain : jsstring;
    tag_category : jsstring;
    tag_source : jsstring }.

Record Store : Type := mkStore
  { clients : list Client;
    queries : list Query;
    runs : list Run;
    citations : list Citation;
    domain_tags : list DomainTag }.

Definition withRuns (st : Store) (rs : list Run) : Store :=
  mkStore (clients st) (queries st) rs (citations st) (domain_tags st).

Definition withCitations (st : Store) (cs : list Citation) : Store :=
  mkStore (clients st) (queries st) (runs st) cs (domain_tags st).

Definition withTags (st : Store) (ts : list DomainTag) : Store :=
  mkStore (clients st) (queries st) (runs st) (citations st) ts.

(** The rowid given to the next inserted row: one more than the largest
    rowid of the table. *)
Definition nextId (ids : list nat) : nat := S (fold_right Nat.max 0 ids).

(** [SELECT ... WHERE p] read with [.get()]: the first matching row. *)
Definition selectFirst {A} (p : A -> bool) (table : list A) : option A :=
  find p table.

(** The LIKE operator of the store: [%] matches any run of characters,
    [_] matches any one character, every other pattern character matches
    itself up to the case of ASCII letters; there is no escape character. *)
Definition charLike (p x : ascii) : bool :=
  Ascii.eqb (lowerChar p) (lowerChar x).

Fixpoint like (pattern : jsstring) : jsstring -> bool :=
  match pattern with
  | [] => fun s => match s with [] => true | _ :: _ => false end
  | p :: pattern' =>
      if Ascii.eqb p "%"
      then fix star (s : jsstring) : bool :=
             like pattern' s
             || match s with [] => false | _ :: s' => star s' end
      else fun s =>
             match s with
             | [] => false
             | x :: s' => (Ascii.eqb p "_" || charLike p x) && like pattern' s'
             end
  end.

(** [UPDATE citations SET category = ? WHERE cond]: the table after the
    statement and its [changes] (the number of rows the WHERE clause
    selected). *)
Definition setCategory (category : jsstring) (c : Citation) : Citation :=
  mkCitation (cit_id c) (cit_run_id c) (cit_url c) (cit_domain c)
             (cit_position c) category.

Definition updateCategoryWhere (cond : Citation -> bool) (category : jsstring)
    (table : list Citation) : list Citation * nat :=
  (map (fun c => if cond c then setCategory category c else c) table,
   length (filter cond table)).

End Db.

Import Db.

(* ================================================================== *)
(** ** Category resolver *)
(* ================================================================== *)

Module Resolver.

Definition OWNED : jsstring := str "owned".
Definition UNKNOWN : jsstring := str "unknown".

(** [owned.trim().toLowerCase().replace(/^www\./, '')]. *)
Definition ownedClean (owned : jsstring) : jsstring :=
  stripWww (toLowerCase (trim owned)).

(** The test of the loop body: [domain === ownedClean ||
    domain.endsWith('.' + ownedClean)]. *)
Definition ownedMatch (domain owned : jsstring) : bool :=
  streq domain (ownedClean owned) || endsWith domain (dot :: ownedClean owned).

(** The [for ... of ownedDomains] loop with its early return. *)
Fixpoint ownedLoop (domain : jsstring) (ownedDomains : list jsstring) : bool :=
  match ownedDomains with
  | [] => false
  | owned :: rest =>
      if ownedMatch domain owned then true else ownedLoop domain rest
  end.

(** [SELECT category FROM domain_tags WHERE domain = ?]. *)
Definition selectTag (tags : list DomainTag) (domain : jsstring)
  : option DomainTag :=
  selectFirst (fun t => streq (tag_domain t) domain) tags.

Definition categorizeDomain (tags : list DomainTag) (domain : jsstring)
    (ownedDomains : list jsstring) : jsstring :=
  (* 1. Check owned domains (including subdomain matching) *)
  if ownedLoop domain ownedDomains then OWNED
  else
    (* 2. Check domain_tags table (exact match) *)
    match selectTag tags domain with
    | Some exactTag => tag_category exactTag
    | None =>
        (* 3. Check parent domain *)
        let parentDomain := getParentDomain domain in
        if negb (streq parentDomain domain) then
          match selectTag tags parentDomain with
          | Some parentTag => tag_category parentTag
          | None => UNKNOWN (* 4. Fallback *)
          end
        else UNKNOWN
    end.

(** *** Vocabulary of the properties *)

(** [d] is [o] itself or a subdomain of it. *)
Definition covers (o d : jsstring) : Prop :=
  d = o \/ exists p, d = p ++ dot :: o.

(** Some entry of the owned-domain list, once cleaned, covers [d]. *)
Definition ownedBy (L : list jsstring) (d : jsstring) : Prop :=
  exists o, In o L /\ covers (ownedClean o) d.

End Resolver.

Import Resolver.

(* ================================================================== *)
(** ** Request handlers *)
(* ================================================================== *)

Module Handlers.

(** What a handler sends back: [res.json(body)], or
    [res.status(status).json({ error })]. *)
Inductive response (A : Type) : Type :=
  | Json (body : A)
  | Error (status : nat) (error : jsstring).

Arguments Json {A} body.
Arguments Error {A} status error.

(** [!x] for an optional string of the request body. *)
Definition falsy (x : option jsstring) : bool :=
  match x with
  | None => true
  | Some [] => true
  | Some (_ :: _) => false
  end.

(** [!x?.trim()]. *)
Definition blank (x : option jsstring) : bool :=
  match x with
  | None => true
  | Some s => falsy (Some (trim s))
  end.

(* ------------------------------------------------------------------ *)
(** *** Domain tags *)

Definition USER : jsstring := str "user".
Definition SYSTEM : jsstring := str "system".

(** [domain.trim().toLowerCase().replace(/^www\./, '')]. *)
Definition cleanDomain (domain : jsstring) : jsstring :=
  stripWww (toLowerCase (trim domain)).

(** [INSERT INTO domain_tags (domain, category, source) VALUES (?, ?, 'user')
     ON CONFLICT(domain) DO UPDATE SET category = ?, source = 'user']. *)
Definition upsertTag (domain category : jsstring) (tags : list DomainTag)
  : list DomainTag :=
  if existsb (fun t => streq (tag_domain t) domain) tags
  then map (fun t =>
              if streq (tag_domain t) domain
              then mkTag (tag_id t) (tag_domain t) category USER
              else t) tags
  else tags ++ [mkTag (nextId (map tag_id tags)) domain category USER].

(** [WHERE domain = ? AND category = 'unknown']. *)
Definition exactUnknown (domain : jsstring) (c : Citation) : bool :=
  streq (cit_domain c) domain && streq (cit_category c) UNKNOWN.

(** [WHERE domain LIKE ? AND category = 'unknown']. *)
Definition likeUnknown (pattern : jsstring) (c : Citation) : bool :=
  like pattern (cit_domain c) && streq (cit_category c) UNKNOWN.

(** The pattern [`%.${cleanDomain}`]. *)
Definition subdomainPattern (domain : jsstring) : jsstring :=
  "%"%char :: dot :: domain.

(** The first retroactive UPDATE (exact domain). *)
Definition updateExact (category domain : jsstring) (table : list Citation)
  : list Citation * nat :=
  updateCategoryWhere (exactUnknown domain) category table.

(** The second retroactive UPDATE (LIKE on the subdomain pattern). *)
Definition updateSubdomains (category domain : jsstring)
    (table : list Citation) : list Citation * nat :=
  updateCategoryWhere (likeUnknown (subdomainPattern domain)) category table.

Record TagResult : Type := mkTagResult
  { res_tag : option DomainTag;
    res_retroactiveUpdates : nat }.

(** POST /api/domain-tags *)
Definition postDomainTag (st : Store) (domain category : option jsstring)
  : response TagResult * Store :=
  match domain, category with
  | Some dom, Some cat =>
      if blank domain || blank category
      then (Error 400 (str "Domain and category are required"), st)
      else
        let clean := cleanDomain dom in
        let st1 := withTags st (upsertTag clean cat (domain_tags st)) in
        (* Retroactively update existing 'unknown' citations *)
        let '(table1, updated) := updateExact cat clean (citations st1) in
        let st2 := withCitations st1 table1 in
        let '(table2, parentUpdated) :=
          updateSubdomains cat clean (citations st2) in
        let st3 := withCitations st2 table2 in
        let tag := selectTag (domain_tags st3) clean in
        (Json (mkTagResult tag (updated + parentUpdated)), st3)
  | _, _ => (Error 400 (str "Domain and category are required"), st)
  end.

(** DELETE /api/domain-tags/:id *)
Definition deleteDomainTag (st : Store) (id : nat) : response unit * Store :=
  match selectFirst (fun t => tag_id t =? id) (domain_tags st) with
  | None => (Error 404 (str "Tag not found"), st)
  | Some tag =>
      if streq (tag_source tag) SYSTEM
      then (Error 403 (str "Cannot delete system tags"), st)
      else
        (Json tt,
         withTags st (filter (fun t => negb (tag_id t =? id)) (domain_tags st)))
  end.

(* ------------------------------------------------------------------ *)
(** *** Vocabulary of the properties *)

(** Well-formed tag tables: row ids are a primary key, and a provenance is
    [system] or [user]. *)
Definition idsUnique (tags : list DomainTag) : Prop :=
  NoDup (map tag_id tags).

Definition provenanceKnown (tags : list DomainTag) : Prop :=
  forall t, In t tags -> tag_source t = SYSTEM \/ tag_source t = USER.

(** What the tag handler does to the store, for a request that passes
    validation. *)
Definition retroactive (category clean : jsstring) (table : list Citation)
  : list Citation :=
  fst (updateSubdomains category clean (fst (updateExact category clean table))).

Definition retroactiveUpdates (category clean : jsstring)
    (table : list Citation) : nat :=
  snd (updateExact category clean table)
  + snd (updateSubdomains category clean
           (fst (updateExact category clean table))).




(** The rows a tag on [clean] reaches: marked [unknown], with the tagged
    domain or a domain the subdomain pattern selects. *)
Definition reached (clean : jsstring) (c : Citation) : bool :=
  streq (cit_category c) UNKNOWN
  && (streq (cit_domain c) clean
      || like (subdomainPattern clean) (cit_domain c)).

Definition recategorize (category clean : jsstring) (c : Citation)
  : Citation :=
  if reached clean c then setCategory category c else c.




End Handlers.

Import Handlers.

(* ================================================================== *)
(** ** Analysis: the run recorder, single and batch *)
(* ================================================================== *)

Module Analyze.

(** One categorized citation, [{ url, domain, position, category }]. *)
Record Categorized : Type := mkCategorized
  { c_url : jsstring;
    c_domain : jsstring;
    c_position : nat;
    c_category : jsstring }.

(** The payload of the answer engine: its JSON text, and the two fields the
    handlers read, [choices[0].message.content] and [citations]. *)
Record ApiData : Type := mkApiData
  { data_json : jsstring;
    data_content : option jsstring;
    data_citations : option (list jsstring) }.

(** How a call of the answer engine ends: a success response, a response
    that is not [ok], or an exception of [fetch]. *)
Inductive upstream : Type :=
  | Responded (data : ApiData)
  | Refused (status : nat) (errorText : jsstring)
  | Failed (message : jsstring).

Record AnalyzeRequest : Type := mkAnalyzeRequest
  { req_queryId : option nat;
    req_query : option jsstring;
    req_apiKey : option jsstring;
    req_model : option jsstring }.

Record AnalyzeResult : Type := mkAnalyzeResult
  { out_runId : option nat;
    out_responseText : jsstring;
    out_citations : list Categorized;
    out_citationCount : nat;
    out_ownedCitationCount : nat;
    out_model : jsstring;
    out_costEstimate : jsnum }.

(** One element of the [results] array of a batch. *)
Inductive BatchEntry : Type :=
  | NotFoundEntry (queryId : nat)
  | ApiErrorEntry (queryId : nat) (query : jsstring) (status : nat)
                  (details : jsstring)
  | RunEntry (queryId : nat) (query : jsstring) (runId : nat)
             (citationCount ownedCitationCount : nat) (costEstimate : jsnum)
             (citations : list Categorized)
  | ThrownEntry (queryId : nat) (query : jsstring) (message : jsstring).

Definition entryQueryId (e : BatchEntry) : nat :=
  match e with
  | NotFoundEntry q => q
  | ApiErrorEntry q _ _ _ => q
  | RunEntry q _ _ _ _ _ _ => q
  | ThrownEntry q _ _ => q
  end.

(** [r.costEstimate || 0]. *)
Definition entryCost (e : BatchEntry) : jsnum :=
  match e with
  | RunEntry _ _ _ _ _ (Num q) _ => Num q
  | _ => Num 0
  end.

Record BatchResult : Type := mkBatchResult
  { out_results : list BatchEntry;
    out_totalCost : jsnum }.

(** [arr.map((x, i) => f i x)], counting from [i]. *)
Fixpoint mapFrom {A B} (f : nat -> A -> B) (i : nat) (arr : list A) : list B :=
  match arr with
  | [] => []
  | x :: rest => f i x :: mapFrom f (S i) rest
  end.

(** [x || ''] and [x || []]. *)
Definition orEmpty {A} (x : option (list A)) : list A :=
  match x with Some l => l | None => [] end.

(** [if (queryId)]: [null], [undefined] and [0] are falsy. *)
Definition truthyId (queryId : option nat) : option nat :=
  match queryId with
  | Some (S n) => Some (S n)
  | _ => None
  end.

(** [SELECT c.owned_domains FROM queries q JOIN clients c
     ON c.id = q.client_id WHERE q.id = ?]. *)
Definition selectOwnedDomains (st : Store) (queryId : nat)
  : option (list jsstring) :=
  match selectFirst (fun q => query_id q =? queryId) (queries st) with
  | Some q =>
      match selectFirst (fun c => client_id c =? query_client_id q)
                        (clients st) with
      | Some c => Some (client_owned_domains c)
      | None => None
      end
  | None => None
  end.

(** The run id a response of the single handler carries. *)
Definition responseRunId (r : response AnalyzeResult) : option nat :=
  match r with
  | Json body => out_runId body
  | Error _ _ => None
  end.

(** The run id an entry of a batch carries. *)
Definition entryRunId (e : BatchEntry) : option nat :=
  match e with
  | RunEntry _ _ runId _ _ _ _ => Some runId
  | _ => None
  end.

(** The store with one more run and more citation rows. *)
Definition plus (st : Store) (run : Run) (rows : list Citation) : Store :=
  mkStore (clients st) (queries st) (runs st ++ [run])
          (citations st ++ rows) (domain_tags st).

(** The citation list of a run is complete: as many rows as the run row
    counts, all of that run, at positions 1, 2, ... *)
Definition completeFor (run : Run) (rows : list Citation) : Prop :=
  length rows = run_citation_count run
  /\ Forall (fun r => cit_run_id r = run_id run) rows
  /\ map cit_position rows = seq 1 (length rows).

(** The run row the recorder inserts. *)
Definition newRun (st : Store) (queryId : nat) (data : ApiData)
    (text model : jsstring) (cost : jsnum) (count owned : nat) : Run :=
  mkRun (nextId (map run_id (runs st))) queryId (data_json data) text model
        cost count owned.

(** The store only grows during a batch: clients, queries and tags stay,
    runs and citations are appended, and every appended run belongs to a
    query of the store. *)
Definition grows (st st' : Store) : Prop :=
  clients st' = clients st /\ queries st' = queries st
  /\ domain_tags st' = domain_tags st
  /\ (exists rs, runs st' = runs st ++ rs
                 /\ forall r, In r rs ->
                      exists q, In q (queries st)
                                /\ query_id q = run_query_id r)
  /\ (exists cs, citations st' = citations st ++ cs).

(** No query of the store has the id. *)
Definition noQuery (st : Store) (id : nat) : Prop :=
  forall q, In q (queries st) -> query_id q <> id.

Section WithEnvironment.

(** The collaborators of the handlers.
    - [hostname]: the runtime's URL parser, [new URL(url).hostname];
      [None] when the constructor throws.
    - [runInsertFails], [citationInsertFails]: the statements the store
      refuses with an exception (a constraint, a lock, an I/O failure).
    - [storageError]: the message of that exception. *)
Variable hostname : jsstring -> option jsstring.
Variable runInsertFails : Run -> bool.
Variable citationInsertFails : Citation -> bool.
Variable storageError : jsstring.

Definition extractDomain (url : jsstring) : jsstring :=
  match hostname url with
  | Some h => stripWww h
  | None => url
  end.

(** Categorize and count. *)
Definition categorize (tags : list DomainTag) (ownedDomains : list jsstring)
    (cits : list jsstring) : list Categorized :=
  mapFrom (fun i url =>
             let domain := extractDomain url in
             let category := categorizeDomain tags domain ownedDomains in
             mkCategorized url domain (i + 1) category) 0 cits.

Definition ownedCount (cs : list Categorized) : nat :=
  length (filter (fun c => streq (c_category c) OWNED) cs).

(** The loop of [insertCitation.run] calls: [None] when one of them
    throws. *)
Fixpoint insertCitations (runId : nat) (items : list Categorized)
    (table : list Citation) : option (list Citation) :=
  match items with
  | [] => Some table
  | c :: rest =>
      let row := mkCitation (nextId (map cit_id table)) runId (c_url c)
                            (c_domain c) (c_position c) (c_category c) in
      if citationInsertFails row then None
      else insertCitations runId rest (table ++ [row])
  end.

(** [db.transaction(fn)()]: the writes of [fn] are committed when it
    returns and rolled back when it throws (the exception goes on to the
    caller). *)
Definition transaction (fn : Store -> option Store) (st : Store)
  : bool * Store :=
  match fn st with
  | Some st' => (true, st')
  | None => (false, st)
  end.

(** The run recorder, written out once for the two handlers that contain
    it: the INSERT of the run row, then the transaction that inserts the
    citation rows.  [Some runId] when it completes, [None] when a statement
    throws; the store is the one left behind in either case. *)
Definition recordRun (st : Store) (queryId : nat) (data : ApiData)
    (responseText model : jsstring) (cost : jsnum) (citationCount : nat)
    (owned : nat) (categorized : list Categorized) : option nat * Store :=
  let runId := nextId (map run_id (runs st)) in
  let run := mkRun runId queryId (data_json data) responseText model cost
                   citationCount owned in
  if runInsertFails run then (None, st)
  else
    let st1 := withRuns st (runs st ++ [run]) in
    match transaction
            (fun s =>
               option_map (withCitations s)
                          (insertCitations runId categorized (citations s)))
            st1 with
    | (true, st2) => (Some runId, st2)
    | (false, st2) => (None, st2)
    end.

Definition SONAR : jsstring := str "sonar".

Definition modelOf (m : option jsstring) : jsstring :=
  match m with Some x => x | None => SONAR end.

(** POST /api/analyze, given how the call of the answer engine ends. *)
Definition analyze (st : Store) (req : AnalyzeRequest) (up : upstream)
  : response AnalyzeResult * Store :=
  let model := modelOf (req_model req) in
  if falsy (req_query req) then (Error 400 (str "Query is required"), st)
  else if falsy (req_apiKey req)
  then (Error 400 (str "API key is required"), st)
  else
    match up with
    | Failed _ => (Error 500 (str "Failed to query Perplexity"), st)
    | Refused status _ => (Error status (str "Perplexity API error"), st)
    | Responded data =>
        let responseText := orEmpty (data_content data) in
        let cits := orEmpty (data_citations data) in
        let cost := estimateCost model 1 in
        (* Get client's owned domains if queryId provided *)
        let ownedDomains :=
          match truthyId (req_queryId req) with
          | Some queryId => orEmpty (selectOwnedDomains st queryId)
          | None => []
          end in
        let categorized := categorize (domain_tags st) ownedDomains cits in
        let owned := ownedCount categorized in
        let result runId :=
          mkAnalyzeResult runId responseText categorized (length cits) owned
                          model cost in
        (* Store run if queryId provided *)
        match truthyId (req_queryId req) with
        | None => (Json (result None), st)
        | Some queryId =>
            match recordRun st queryId data responseText model cost
                            (length cits) owned categorized with
            | (Some runId, st') => (Json (result (Some runId)), st')
            | (None, st') =>
                (Error 500 (str "Failed to query Perplexity"), st')
            end
        end
    end.

(** One iteration of the batch loop: the entry pushed on [results] and the
    store left behind.  [fetch i text] is how the [i]-th call of the answer
    engine ends. *)
Variable fetch : nat -> jsstring -> upstream.

Definition batchItem (model : jsstring) (i : nat) (queryId : nat)
    (st : Store) : BatchEntry * Store :=
  match selectFirst (fun q => query_id q =? queryId) (queries st) with
  | None => (NotFoundEntry queryId, st)
  | Some queryRow =>
      let text := query_text queryRow in
      match fetch i text with
      | Failed message => (ThrownEntry queryId text message, st)
      | Refused status errorText =>
          (ApiErrorEntry queryId text status errorText, st)
      | Responded data =>
          let responseText := orEmpty (data_content data) in
          let cits := orEmpty (data_citations data) in
          let cost := estimateCost model 1 in
          let ownedDomains := orEmpty (selectOwnedDomains st queryId) in
          let categorized := categorize (domain_tags st) ownedDomains cits in
          let owned := ownedCount categorized in
          match recordRun st queryId data responseText model cost
                          (length cits) owned categorized with
          | (Some runId, st') =>
              (RunEntry queryId text runId (length cits) owned cost
                        categorized, st')
          | (None, st') => (ThrownEntry queryId text storageError, st')
          end
      end
  end.

(** [for (let i = 0; i < queryIds.length; i++)], from index [i]. *)
Fixpoint batchLoop (model : jsstring) (i : nat) (queryIds : list nat)
    (st : Store) : list BatchEntry * Store :=
  match queryIds with
  | [] => ([], st)
  | queryId :: rest =>
      let '(entry, st1) := batchItem model i queryId st in
      let '(entries, st2) := batchLoop model (S i) rest st1 in
      (entry :: entries, st2)
  end.

(** POST /api/analyze/batch *)
Definition analyzeBatch (st : Store) (queryIds : option (list nat))
    (apiKey model : option jsstring) : response BatchResult * Store :=
  match queryIds with
  | None | Some [] => (Error 400 (str "queryIds array is required"), st)
  | Some ids =>
      if falsy apiKey then (Error 400 (str "API key is required"), st)
      else
        let '(results, st') := batchLoop (modelOf model) 0 ids st in
        (Json (mkBatchResult results
                 (fold_left (fun sum r => jsadd sum (entryCost r)) results
                            (Num 0))),
         st')
  end.

(** What one recorded request leaves behind, given the run id it reports:
    nothing; or a run with its complete citation list; or, when the store
    refused a citation row, the run row alone. *)
Definition recorded (st st' : Store) (runId : option nat) : Prop :=
  (runId = None /\ st' = st)
  \/ (exists run rows,
         runId = Some (run_id run) /\ st' = plus st run rows
         /\ completeFor run rows)
  \/ (exists run row,
         runId = None /\ st' = plus st run []
         /\ cit_run_id row = run_id run /\ citationInsertFails row = true).

(** The store refuses no insert. *)
Definition healthy : Prop :=
  (forall r, runInsertFails r = false)
  /\ (forall c, citationInsertFails c = false).

End WithEnvironment.

(** A URL parser for the URLs of the examples, [scheme://host/path]: the
    host in lower case; anything without [://] is refused. *)
Fixpoint afterScheme (url : jsstring) : option jsstring :=
  match url with
  | ":"%char :: "/"%char :: "/"%char :: rest => Some rest
  | _ :: rest => afterScheme rest
  | [] => None
  end.

Fixpoint upToSlash (s : jsstring) : jsstring :=
  match s with
  | [] => []
  | c :: rest => if Ascii.eqb c "/" then [] else c :: upToSlash rest
  end.

Definition simpleHostname (url : jsstring) : option jsstring :=
  option_map (fun rest => toLowerCase (upToSlash rest)) (afterScheme url).

End Analyze.

Import Analyze.

(* ================================================================== *)
(** ** Stores and requests of the examples *)
(* ================================================================== *)

Module Examples.

Definition sampleTags : list DomainTag :=
  [ mkTag 1 (str "coindesk.com") (str "news") (str "system");
    mkTag 2 (str "owned.com") (str "social") (str "system") ].

Definition seeded : Store :=
  mkStore [] [] [] []
    [ mkTag 1 (str "coindesk.com") (str "news") SYSTEM;
      mkTag 2 (str "myblog.org") (str "blog") USER ].

Definition history : Store :=
  mkStore [] [] []
    [ mkCitation 1 1 (str "https://example.com/a") (str "example.com") 1
                 UNKNOWN;
      mkCitation 2 1 (str "https://blog.example.com/b")
                 (str "blog.example.com") 2 UNKNOWN;
      mkCitation 3 1 (str "https://example.com/c") (str "example.com") 3
                 (str "social");
      mkCitation 4 1 (str "https://x.axb.com/d") (str "x.axb.com") 4 UNKNOWN;
      mkCitation 5 1 (str "Y.A_B.COM") (str "Y.A_B.COM") 5 UNKNOWN ]
    [].

Definition acme : Store :=
  mkStore [mkClient 1 (str "Acme") [str "owned.com"]]
          [mkQuery 1 1 (str "best exchange"); mkQuery 2 1 (str "top wallets")]
          [] []
          [mkTag 1 (str "coindesk.com") (str "news") SYSTEM].

Definition answer : ApiData :=
  mkApiData (str "{raw}") (Some (str "An answer."))
            (Some [str "https://www.coindesk.com/a";
                   str "https://sub.owned.com/x"]).

Definition accept {A} (_ : A) : bool := false.

(** A store that refuses the second citation row of a run. *)
Definition refuseSecond (c : Citation) : bool := cit_position c =? 2.

Definition request : AnalyzeRequest :=
  mkAnalyzeRequest (Some 1) (Some (str "best exchange")) (Some (str "key"))
                   None.

(** Each call of the answer engine succeeds with the same payload. *)
Definition fetchAnswer (_ : nat) (_ : jsstring) : upstream := Responded answer.

End Examples.

Import Examples.

(* ================================================================== *)
(** ** Response keys: snake case to camel case *)
(* ================================================================== *)

Module Camel.

(** [a-z]. *)
Definition isLower (c : ascii) : bool :=
  let n := nat_of_ascii c in (97 <=? n) && (n <=? 122).

(** [A-Z]. *)
Definition isUpper (c : ascii) : bool :=
  let n := nat_of_ascii c in (65 <=? n) && (n <=? 90).

(** [c.toUpperCase()] for one ASCII character. *)
Definition upperChar (c : ascii) : ascii :=
  if isLower c then ascii_of_nat (nat_of_ascii c - 32) else c.

(** [s.replace(/_([a-z])/g, (_, c) => c.toUpperCase())]: the matches are
    taken from left to right and do not overlap. *)
Fixpoint toCamel (s : jsstring) : jsstring :=
  match s with
  | [] => []
  | x :: s' =>
      match s' with
      | c :: rest =>
          if Ascii.eqb x "_" && isLower c
          then upperChar c :: toCamel rest
          else x :: toCamel s'
      | [] => [x]
      end
  end.

(** The entries [camelKeys] hands to [Object.fromEntries] for a row: every
    key converted, every value as it is. *)
Definition camelEntries {V} (row : list (jsstring * V))
  : list (jsstring * V) :=
  map (fun kv => (toCamel (fst kv), snd kv)) row.

(** *** Vocabulary of the properties *)

(** Some underscore of [s] is followed by a lower-case letter. *)
Fixpoint hasSnake (s : jsstring) : bool :=
  match s with
  | [] => false
  | x :: s' =>
      match s' with
      | c :: _ => (Ascii.eqb x "_" && isLower c) || hasSnake s'
      | [] => false
      end
  end.

(** The string starts with a small letter. *)
Definition firstLower (s : jsstring) : bool :=
  match s with
  | c :: _ => isLower c
  | [] => false
  end.

(** No capital letter occurs in [s]. *)
Definition noUpper (s : jsstring) : Prop :=
  forall c, In c s -> isUpper c = false.

(** Every capital letter spelled as an underscore and the small letter:
    the way back from a converted key, used to tell converted keys apart. *)
Fixpoint unCamel (s : jsstring) : jsstring :=
  match s with
  | [] => []
  | c :: rest =>
      if isUpper c then "_"%char :: lowerChar c :: unCamel rest
      else c :: unCamel rest
  end.

End Camel.

Import Camel.

(* ================================================================== *)
(** ** Client library: category hints and cost estimate *)
(* ================================================================== *)

Module ClientLib.

(** [s.includes(t)]. *)
Fixpoint includes (s t : jsstring) : bool :=
  startsWith s t
  || match s with
     | [] => false
     | _ :: s' => includes s' t
     end.

(** Pattern-based category suggestion (not auto-applied, for UI hints);
    [None] is [null]. *)
Definition suggestCategory (domain url : jsstring) : option jsstring :=
  let d := toLowerCase domain in
  let u := toLowerCase url in
  (* TLD-based hints *)
  if endsWith d (str ".news") then Some (str "news")
  else if endsWith d (str ".dev") then Some (str "developer")
  else if endsWith d (str ".edu") then Some (str "reference")
  else if endsWith d (str ".gov") then Some (str "reference")
  (* URL path hints *)
  else if includes u (str "/blog/") || includes u (str "/blog.")
  then Some (str "blog")
  else if includes u (str "/article/") || includes u (str "/articles/")
  then Some (str "news")
  else if includes u (str "/docs/") || includes u (str "/documentation/")
  then Some (str "developer")
  else if includes u (str "/wiki/") then Some (str "reference")
  else if includes u (str "/video/") || includes u (str "/watch")
  then Some (str "video")
  (* Domain keyword hints *)
  else if includes d (str "news") || includes d (str "journal")
          || includes d (str "times") || includes d (str "post")
  then Some (str "news")
  else if includes d (str "exchange") || includes d (str "swap")
          || includes d (str "dex") || includes d (str "trade")
  then Some (str "exchange")
  else if includes d (str "blog") then Some (str "blog")
  else if includes d (str "wiki") || includes d (str "pedia")
  then Some (str "reference")
  else if includes d (str "forum") || includes d (str "community")
  then Some (str "social")
  else None.

(** The keys of [CATEGORIES], in the order of the object literal. *)
Definition CATEGORY_KEYS : list jsstring :=
  map str
    [ "owned"; "news"; "exchange"; "video"; "social"; "developer";
      "reference"; "aggregator"; "blog"; "unknown" ]%string.

(** The values of [CATEGORY_OPTIONS]: every key but [owned]. *)
Definition CATEGORY_OPTIONS : list jsstring :=
  filter (fun key => negb (streq key OWNED)) CATEGORY_KEYS.

(** One row of the pricing table of the client: a label and the two
    prices. *)
Record PricingRow : Type := mkPricingRow
  { row_label : jsstring;
    row_price : property }.

(** Model pricing for cost estimation UI. *)
Definition MODEL_PRICING_UI : list (jsstring * PricingRow) :=
  [ (str "sonar", mkPricingRow (str "Sonar") (Pricing 1 1));
    (str "sonar-pro", mkPricingRow (str "Sonar Pro") (Pricing 3 15));
    (str "sonar-reasoning",
     mkPricingRow (str "Sonar Reasoning") (Pricing 1 5));
    (str "sonar-reasoning-pro",
     mkPricingRow (str "Sonar Reasoning Pro") (Pricing 2 8)) ].

Fixpoint ownRow (table : list (jsstring * PricingRow)) (key : jsstring)
  : option PricingRow :=
  match table with
  | [] => None
  | (k, v) :: rest => if streq k key then Some v else ownRow rest key
  end.

(** [MODEL_PRICING[key]] on the client: own row first, then the members
    inherited from [Object.prototype]. *)
Definition getPropertyUI (key : jsstring) : option property :=
  match ownRow MODEL_PRICING_UI key with
  | Some row => Some (row_price row)
  | None =>
      if existsb (streq key) OBJECT_PROTOTYPE then Some Inherited else None
  end.

Definition estimateCostClient (model : jsstring) (queryCount : Q) : jsnum :=
  let pricing :=
    match getPropertyUI model with
    | Some p => p
    | None => Pricing 1 1 (* MODEL_PRICING['sonar'] *)
    end in
  let avgInputTokens := 200%Q in
  let avgOutputTokens := 500%Q in
  let costPerQuery :=
    jsadd (jsmul (Num (avgInputTokens / 1000000)) (inputOf pricing))
          (jsmul (Num (avgOutputTokens / 1000000)) (outputOf pricing)) in
  toFixed6 (jsmul costPerQuery (Num queryCount)).

End ClientLib.

Import ClientLib.

(* ================================================================== *)
(** ** Clients, queries and citation listings *)
(* ================================================================== *)

Module Crud.

(** What these handlers send back: [res.status(status).json(body)], or
    [res.status(status).json({ error })]. *)
Inductive reply (A : Type) : Type :=
  | Sent (status : nat) (body : A)
  | Rejected (status : nat) (error : jsstring).

Arguments Sent {A} status body.
Arguments Rejected {A} status error.


Definition withQueries (st : Store) (qs : list Query) : Store :=
  mkStore (clients st) qs (runs st) (citations st) (domain_tags st).




Section WithQueryStore.

(** The INSERT statements on [queries] that the store refuses with an
    exception (a missing client under foreign keys, a lock, ...). *)
Variable queryInsertFails : Query -> bool.

(** The body of [insertMany]: blank texts are skipped, the others are
    inserted trimmed; the table and the new row ids so far are threaded
    through.  [None] when an insert throws. *)
Fixpoint insertQueries (clientId : nat) (items : list jsstring)
    (table : list Query) (results : list nat)
  : option (list Query * list nat) :=
  match items with
  | [] => Some (table, results)
  | text :: rest =>
      match trim text with
      | [] => insertQueries clientId rest table results
      | t =>
          let row := mkQuery (nextId (map query_id table)) clientId t in
          if queryInsertFails row then None
          else insertQueries clientId rest (table ++ [row])
                             (results ++ [query_id row])
      end
  end.

(** POST /api/clients/:id/queries.  An exception of the transaction is
    not caught by the handler: the table is rolled back and the framework
    answers 500. *)
Definition postQueries (st : Store) (clientId : nat)
    (texts : option (list jsstring)) : reply (list Query) * Store :=
  match texts with
  | None | Some [] => (Rejected 400 (str "Queries array is required"), st)
  | Some items =>
      match insertQueries clientId items (queries st) [] with
      | None => (Rejected 500 (str "Internal Server Error"), st)
      | Some (table, ids) =>
          let st' := withQueries st table in
          match ids with
          | [] =>
              (Rejected 400
                 (str "No valid queries provided (all were empty)"), st')
          | _ :: _ =>
              (Sent 201
                 (filter (fun q => existsb (Nat.eqb (query_id q)) ids)
                         (queries st')),
               st')
          end
      end
  end.

End WithQueryStore.

(** [ORDER BY position ASC], as an insertion sort that keeps the table
    order of rows with equal positions. *)
Fixpoint insertByPosition (c : Citation) (sorted : list Citation)
  : list Citation :=
  match sorted with
  | [] => [c]
  | x :: rest =>
      if cit_position c <=? cit_position x then c :: sorted
      else x :: insertByPosition c rest
  end.

Definition orderByPosition (rows : list Citation) : list Citation :=
  fold_right insertByPosition [] rows.

(** GET /api/runs/:id/citations *)
Definition getRunCitations (st : Store) (runId : nat) : list Citation :=
  orderByPosition (filter (fun c => cit_run_id c =? runId) (citations st)).

(** *** Vocabulary of the properties *)

(** Row ids are primary keys and every citation belongs to a stored run. *)
Definition runsKeyed (st : Store) : Prop := NoDup (map run_id (runs st)).

Definition citationsKeyed (st : Store) : Prop :=
  NoDup (map cit_id (citations st)).

Definition citationsOwned (st : Store) : Prop :=
  forall c, In c (citations st) ->
            exists r, In r (runs st) /\ run_id r = cit_run_id c.

Definition consistent (st : Store) : Prop :=
  runsKeyed st /\ citationsKeyed st /\ citationsOwned st.

(** A categorized citation and the row stored for it. *)
Definition stored (runId : nat) (item : Categorized) (row : Citation) : Prop :=
  cit_run_id row = runId /\ cit_url row = c_url item
  /\ cit_domain row = c_domain item /\ cit_position row = c_position item
  /\ cit_category row = c_category item.


(** The texts a submission keeps: trimmed, the blank ones left out. *)
Definition keptTexts (texts : list jsstring) : list jsstring :=
  filter (fun t => match t with [] => false | _ :: _ => true end)
         (map trim texts).



End Crud.

Import Crud.

(* ================================================================== *)
(** * Properties *)
(* ================================================================== *)

(** ** Facts about strings and arrays *)

Module JsFacts.

Lemma streq_refl (a : jsstring) : streq a a = true.
Proof.
  induction a as [|x a IH]; simpl; [reflexivity|].
  now rewrite Ascii.eqb_refl, IH.
Qed.

Lemma streq_eq (a b : jsstring) : streq a b = true <-> a = b.
Proof.
  split.
  - revert b; induction a as [|x a IH]; intros [|y b] H; simpl in H;
      try discriminate; [reflexivity|].
    apply andb_true_iff in H as [Hxy Hab].
    apply Ascii.eqb_eq in Hxy. apply IH in Hab. now subst.
  - intros ->. apply streq_refl.
Qed.

Lemma streq_neq (a b : jsstring) : streq a b = false <-> a <> b.
Proof.
  rewrite <- streq_eq. destruct (streq a b); split; congruence.
Qed.

(** [endsWith] is the suffix relation. *)
Lemma endsWith_suffix (s t : jsstring) :
  endsWith s t = true <-> exists p, s = p ++ t.
Proof.
  unfold endsWith. rewrite andb_true_iff, Nat.leb_le, streq_eq. split.
  - intros [_ H]. exists (firstn (length s - length t) s).
    rewrite <- H at 2. symmetry. apply firstn_skipn.
  - intros [p ->]. rewrite length_app. split; [lia|].
    replace (length p + length t - length t) with (length p + 0) by lia.
    now rewrite skipn_app, Nat.add_0_r, skipn_all, Nat.sub_diag.
Qed.

Lemma split_not_nil (sep : ascii) (s : jsstring) : split sep s <> [].
Proof.
  destruct s as [|c s]; simpl; [discriminate|].
  destruct (Ascii.eqb c sep); [discriminate|].
  destruct (split sep s); discriminate.
Qed.

(** Joining the parts of a split gives the string back. *)
Lemma join_split (sep : ascii) (s : jsstring) : join sep (split sep s) = s.
Proof.
  induction s as [|c s IH]; [reflexivity|].
  simpl. destruct (Ascii.eqb c sep) eqn:E.
  - apply Ascii.eqb_eq in E. subst c.
    pose proof (split_not_nil sep s) as Hne.
    simpl. destruct (split sep s) as [|p ps]; [contradiction|].
    now rewrite IH.
  - pose proof (split_not_nil sep s) as Hne.
    destruct (split sep s) as [|p ps]; [contradiction|].
    rewrite <- IH. destruct ps; reflexivity.
Qed.

(** [slice(-n)] keeps the last [n] elements. *)
Lemma sliceLast_last {A} (n : nat) (l : list A) :
  sliceLast n l = rev (firstn n (rev l)).
Proof.
  unfold sliceLast. now rewrite firstn_rev, rev_involutive.
Qed.

Lemma existsb_streq_In (x : jsstring) (l : list jsstring) :
  existsb (streq x) l = true <-> In x l.
Proof.
  rewrite existsb_exists. split.
  - intros [y [Hy E]]. apply streq_eq in E. now subst.
  - intros H. exists x. split; [assumption|apply streq_refl].
Qed.

End JsFacts.

Import JsFacts.

(** ** Parent-domain resolver *)

Module ParentDomain.

Lemma COMPOUND_TLDS_has_In (x : jsstring) :
  COMPOUND_TLDS_has x = true <-> In x COMPOUND_TLDS.
Proof. apply existsb_streq_In. Qed.

Lemma lastLabels_slice (n : nat) (d : jsstring) :
  lastLabels n d = join dot (sliceLast n (split dot d)).
Proof. unfold lastLabels, labels. now rewrite sliceLast_last. Qed.

(** C5.  The parent of a domain, by its number of dot-separated labels: a
    domain of at most two labels is its own parent; a domain of more than
    three labels whose last two labels form a compound TLD has its last
    three labels as parent; every other domain has its last two labels as
    parent.  The three examples of the specification follow. *)
Theorem getParentDomain_by_labels :
  (forall d : jsstring,
      (length (labels d) <= 2 -> getParentDomain d = d)
      /\ (length (labels d) > 3 -> In (lastLabels 2 d) COMPOUND_TLDS ->
          getParentDomain d = lastLabels 3 d)
      /\ (length (labels d) > 2 ->
          ~ (length (labels d) > 3 /\ In (lastLabels 2 d) COMPOUND_TLDS) ->
          getParentDomain d = lastLabels 2 d))
  /\ getParentDomain (str "docs.example.co.uk") = str "example.co.uk"
  /\ getParentDomain (str "blog.example.com") = str "example.com"
  /\ getParentDomain (str "example.com") = str "example.com".
Proof.
  split; [|repeat split; reflexivity].
  intros d. rewrite !lastLabels_slice. unfold getParentDomain, labels.
  repeat split.
  - intros H. apply Nat.leb_le in H. now rewrite H.
  - intros Hlen Hin.
    destruct (length (split dot d) <=? 2) eqn:E;
      [apply Nat.leb_le in E; lia|].
    apply COMPOUND_TLDS_has_In in Hin. rewrite Hin.
    assert ((3 <? length (split dot d)) = true) as -> by (apply Nat.ltb_lt; lia).
    reflexivity.
  - intros Hlen Hnot.
    destruct (length (split dot d) <=? 2) eqn:E;
      [apply Nat.leb_le in E; lia|].
    destruct (COMPOUND_TLDS_has _ && _) eqn:F; [|reflexivity].
    exfalso. apply Hnot. apply andb_true_iff in F as [F1 F2].
    apply Nat.ltb_lt in F2. apply COMPOUND_TLDS_has_In in F1. split; [lia|assumption].
Qed.

Lemma getParentDomain_by_labels_witness :
  (length (labels (str "example")) <= 2
   /\ getParentDomain (str "example") = str "example")
  /\ (length (labels (str "a.docs.example.co.uk")) > 3
      /\ In (lastLabels 2 (str "a.docs.example.co.uk")) COMPOUND_TLDS
      /\ getParentDomain (str "a.docs.example.co.uk")
         = lastLabels 3 (str "a.docs.example.co.uk"))
  /\ (length (labels (str "example.co.uk")) > 2
      /\ ~ (length (labels (str "example.co.uk")) > 3
            /\ In (lastLabels 2 (str "example.co.uk")) COMPOUND_TLDS)
      /\ getParentDomain (str "example.co.uk")
         = lastLabels 2 (str "example.co.uk")).
Proof.
  pose proof (proj1 getParentDomain_by_labels) as H.
  split; [|split].
  - assert (length (labels (str "example")) <= 2) as L by (vm_compute; lia).
    split; [exact L|]. exact (proj1 (H (str "example")) L).
  - assert (length (labels (str "a.docs.example.co.uk")) > 3) as L
        by (vm_compute; lia).
    assert (In (lastLabels 2 (str "a.docs.example.co.uk")) COMPOUND_TLDS) as I
        by (apply COMPOUND_TLDS_has_In; reflexivity).
    split; [exact L|]. split; [exact I|].
    exact (proj1 (proj2 (H (str "a.docs.example.co.uk"))) L I).
  - assert (length (labels (str "example.co.uk")) > 2) as L
        by (vm_compute; lia).
    assert (~ (length (labels (str "example.co.uk")) > 3
               /\ In (lastLabels 2 (str "example.co.uk")) COMPOUND_TLDS)) as N
        by (intros [N _]; vm_compute in N; lia).
    split; [exact L|]. split; [exact N|].
    exact (proj2 (proj2 (H (str "example.co.uk"))) L N).
Defined.

End ParentDomain.

(** ** Cost estimator *)

Module CostFacts.

Local Open Scope Q_scope.

Example estimateCost_sonar_1 : estimateCost (str "sonar") 1 = Num 0.0007.
Proof. reflexivity. Qed.



(** A model that is neither priced nor a name inherited from the prototype
    of the table gets the pricing of [sonar]. *)
Lemma estimateCost_fallback (model : jsstring) (queryCount : Q) :
  ownProperty MODEL_PRICING model = None ->
  ~ In model OBJECT_PROTOTYPE ->
  estimateCost model queryCount = estimateCost (str "sonar") queryCount.
Proof.
  intros Hown Hproto. unfold estimateCost at 1, getProperty. rewrite Hown.
  destruct (existsb (streq model) OBJECT_PROTOTYPE) eqn:E.
  - apply existsb_streq_In in E. contradiction.
  - reflexivity.
Qed.

(** C8, at the model name [constructor].  The name is not in the pricing
    table, yet the estimate for ten queries is [NaN] and not the estimate
    made with the pricing of [sonar], 0.007: the lookup finds the member of
    that name which the table inherits, the fallback is not taken, and the
    prices read from it are undefined. *)
Theorem estimateCost_inherited_name :
  ownProperty MODEL_PRICING (str "constructor") = None
  /\ estimateCost (str "constructor") 10 = NaN
  /\ estimateCost (str "sonar") 10 = Num 0.007.
Proof. repeat split; reflexivity. Qed.

End CostFacts.

(** ** Category resolver *)

Module ResolverFacts.

Lemma ownedMatch_covers (d o : jsstring) :
  ownedMatch d o = true <-> covers (ownedClean o) d.
Proof.
  unfold ownedMatch, covers.
  rewrite orb_true_iff, streq_eq, endsWith_suffix. reflexivity.
Qed.

Lemma ownedLoop_ownedBy (d : jsstring) (L : list jsstring) :
  ownedLoop d L = true <-> ownedBy L d.
Proof.
  unfold ownedBy. induction L as [|o L IH]; simpl.
  - split; [discriminate|]. intros [o [[] _]].
  - destruct (ownedMatch d o) eqn:E.
    + split; [|reflexivity]. intros _. exists o. split; [now left|].
      now apply ownedMatch_covers.
    + rewrite IH. split.
      * intros [o' [Hin Hc]]. exists o'. split; [now right|assumption].
      * intros [o' [[->|Hin] Hc]].
        -- apply ownedMatch_covers in Hc. congruence.
        -- exists o'. now split.
Qed.

(** The tag read for a domain is a row of the table with that domain. *)
Lemma selectTag_In (tags : list DomainTag) (d : jsstring) (t : DomainTag) :
  selectTag tags d = Some t -> In t tags /\ tag_domain t = d.
Proof.
  unfold selectTag, selectFirst. intros H. apply find_some in H as [Hin E].
  apply streq_eq in E. now split.
Qed.

Lemma selectTag_None (tags : list DomainTag) (d : jsstring) :
  selectTag tags d = None <-> forall t, In t tags -> tag_domain t <> d.
Proof.
  unfold selectTag, selectFirst. split.
  - intros H t Hin. apply streq_neq. exact (find_none _ _ H t Hin).
  - intros H. destruct (find _ tags) as [t|] eqn:E; [|reflexivity].
    apply find_some in E as [Hin E]. apply streq_eq in E.
    now apply H in Hin.
Qed.

(** C2.  The four steps of the resolver, first match first.  An entry of
    the owned-domain list is cleaned (trimmed, lower-cased, leading [www.]
    removed) before it is compared.
    - A domain covered by an owned entry is [owned], whatever the tag
      table holds.
    - Otherwise a domain with a tag of its own has the category of that
      tag.
    - Otherwise a domain whose parent domain differs from it and has a tag
      has the category of that tag.
    - Otherwise the category is [unknown]. *)
Theorem categorizeDomain_precedence
    (tags : list DomainTag) (d : jsstring) (L : list jsstring) :
  (ownedBy L d -> categorizeDomain tags d L = OWNED)
  /\ (forall t,
        ~ ownedBy L d -> selectTag tags d = Some t ->
        categorizeDomain tags d L = tag_category t)
  /\ (forall t,
        ~ ownedBy L d -> selectTag tags d = None ->
        getParentDomain d <> d ->
        selectTag tags (getParentDomain d) = Some t ->
        categorizeDomain tags d L = tag_category t)
  /\ (~ ownedBy L d -> selectTag tags d = None ->
      getParentDomain d = d \/ selectTag tags (getParentDomain d) = None ->
      categorizeDomain tags d L = UNKNOWN).
Proof.
  unfold categorizeDomain.
  destruct (ownedLoop d L) eqn:EO.
  - apply ownedLoop_ownedBy in EO.
    repeat split; try reflexivity; intros; contradiction.
  - assert (~ ownedBy L d) as HN
        by (rewrite <- ownedLoop_ownedBy; congruence).
    split; [intros; contradiction|].
    split; [intros t _ ->; reflexivity|].
    split.
    + intros t _ -> Hp ->.
      apply streq_neq in Hp. now rewrite Hp.
    + intros _ -> [Hp| ->].
      * rewrite Hp, streq_refl. reflexivity.
      * now destruct (negb _).
Qed.

Lemma categorizeDomain_precedence_witness :
  categorizeDomain sampleTags (str "sub.owned.com") [str " WWW.Owned.com "]
  = OWNED
  /\ categorizeDomain sampleTags (str "coindesk.com") [str "owned.com"]
     = str "news"
  /\ categorizeDomain sampleTags (str "markets.coindesk.com") [str "owned.com"]
     = str "news"
  /\ categorizeDomain sampleTags (str "notowned.com") [str "owned.com"]
     = UNKNOWN.
Proof.
  assert (forall d, covers (str "owned.com") d ->
                    endsWith d (str "owned.com") = true) as Hcov.
  { intros d [->|[p ->]]; [reflexivity|].
    apply endsWith_suffix. exists (p ++ [dot]).
    rewrite <- app_assoc. reflexivity. }
  assert (forall d, endsWith d (str "owned.com") = false
                    \/ (streq d (str "owned.com") = false
                        /\ endsWith d (str ".owned.com") = false) ->
                    ~ ownedBy [str "owned.com"] d) as Hnot.
  { intros d Hd [o [[<-|[]] Hc]].
    destruct Hd as [Hd|[Hd1 Hd2]].
    - apply Hcov in Hc. congruence.
    - apply ownedMatch_covers in Hc. unfold ownedMatch in Hc.
      change (ownedClean (str "owned.com")) with (str "owned.com") in Hc.
      change (dot :: str "owned.com") with (str ".owned.com") in Hc.
      rewrite Hd1, Hd2 in Hc. discriminate. }
  split; [|split; [|split]].
  - apply (proj1 (categorizeDomain_precedence sampleTags (str "sub.owned.com")
                    [str " WWW.Owned.com "])).
    exists (str " WWW.Owned.com "). split; [now left|].
    right. exists (str "sub"). reflexivity.
  - apply (proj1 (proj2 (categorizeDomain_precedence sampleTags
                           (str "coindesk.com") [str "owned.com"]))
             (mkTag 1 (str "coindesk.com") (str "news") (str "system"))).
    + apply Hnot. left. reflexivity.
    + reflexivity.
  - apply (proj1 (proj2 (proj2 (categorizeDomain_precedence sampleTags
                           (str "markets.coindesk.com") [str "owned.com"])))
             (mkTag 1 (str "coindesk.com") (str "news") (str "system"))).
    + apply Hnot. left. reflexivity.
    + reflexivity.
    + vm_compute. discriminate.
    + reflexivity.
  - apply (proj2 (proj2 (proj2 (categorizeDomain_precedence sampleTags
                           (str "notowned.com") [str "owned.com"])))).
    + apply Hnot. right. split; reflexivity.
    + reflexivity.
    + left. reflexivity.
Defined.

End ResolverFacts.

(** ** Tag store: upsert and delete *)

Module TagFacts.

Lemma fold_max_ge (ids : list nat) (n : nat) :
  In n ids -> n <= fold_right Nat.max 0 ids.
Proof.
  induction ids as [|m ids IH]; simpl; [intros []|].
  intros [->|H]; [lia|]. apply IH in H. lia.
Qed.

Lemma nextId_fresh (ids : list nat) : ~ In (nextId ids) ids.
Proof.
  intros H. apply fold_max_ge in H. unfold nextId in H. lia.
Qed.

(** Reading a row by a unique key gives that row. *)
Lemma selectFirst_key {A} (key : A -> nat) (table : list A) (x : A) :
  NoDup (map key table) -> In x table ->
  selectFirst (fun y => key y =? key x) table = Some x.
Proof.
  unfold selectFirst. induction table as [|y table IH]; simpl; [intros _ []|].
  intros Hnd Hin. inversion Hnd as [|? ? Hy Hnd']; subst.
  destruct Hin as [->|Hin].
  - now rewrite Nat.eqb_refl.
  - destruct (key y =? key x) eqn:E.
    + apply Nat.eqb_eq in E. exfalso. apply Hy. rewrite E. now apply in_map.
    + now apply IH.
Qed.

Lemma selectFirst_id_None (tags : list DomainTag) (id : nat) :
  (forall t, In t tags -> tag_id t <> id) ->
  selectFirst (fun t => tag_id t =? id) tags = None.
Proof.
  intros H. unfold selectFirst.
  destruct (find _ tags) as [t|] eqn:E; [|reflexivity].
  apply find_some in E as [Hin E]. apply Nat.eqb_eq in E.
  now apply H in Hin.
Qed.

Lemma USER_not_SYSTEM : streq USER SYSTEM = false.
Proof. reflexivity. Qed.

(** C6.  Deleting a tag fails closed.  On a well-formed tag table:
    - when no tag has the id, the answer is 404 and the store is unchanged;
    - when the tag of that id has provenance [system], the answer is 403
      and the store is unchanged;
    - a row that is gone after the call had that id and provenance [user];
    - and a tag of that id with provenance [user] is indeed removed. *)
Theorem deleteDomainTag_fails_closed (st : Store) (id : nat) :
  idsUnique (domain_tags st) ->
  provenanceKnown (domain_tags st) ->
  ((forall t, In t (domain_tags st) -> tag_id t <> id) ->
   deleteDomainTag st id = (Error 404 (str "Tag not found"), st))
  /\ (forall t, In t (domain_tags st) -> tag_id t = id ->
                tag_source t = SYSTEM ->
      deleteDomainTag st id = (Error 403 (str "Cannot delete system tags"), st))
  /\ (forall t, In t (domain_tags st) ->
                ~ In t (domain_tags (snd (deleteDomainTag st id))) ->
      tag_id t = id /\ tag_source t = USER)
  /\ (forall t, In t (domain_tags st) -> tag_id t = id ->
                tag_source t = USER ->
      fst (deleteDomainTag st id) = Json tt
      /\ ~ In t (domain_tags (snd (deleteDomainTag st id)))).
Proof.
  intros Hids Hsrc. unfold deleteDomainTag.
  split; [|split; [|split]].
  - intros H. now rewrite selectFirst_id_None.
  - intros t Hin <- Hsys.
    rewrite (selectFirst_key tag_id _ _ Hids Hin), Hsys.
    now rewrite streq_refl.
  - intros t Hin Hgone.
    destruct (selectFirst _ _) as [tag|] eqn:E; [|simpl in *; contradiction].
    destruct (streq (tag_source tag) SYSTEM) eqn:S;
      [simpl in *; contradiction|].
    simpl in Hgone.
    assert (tag_id t = id) as Hid.
    { destruct (Nat.eq_dec (tag_id t) id) as [e|n]; [exact e|].
      exfalso. apply Hgone. apply filter_In. split; [assumption|].
      apply negb_true_iff. now apply Nat.eqb_neq. }
    split; [exact Hid|]. subst id.
    rewrite (selectFirst_key tag_id _ _ Hids Hin) in E.
    injection E as <-. destruct (Hsrc t Hin) as [Hs|Hs]; [|exact Hs].
    rewrite Hs in S. discriminate.
  - intros t Hin <- Husr.
    rewrite (selectFirst_key tag_id _ _ Hids Hin), Husr, USER_not_SYSTEM.
    split; [reflexivity|]. simpl. intros Hin'.
    apply filter_In in Hin' as [_ Hin']. now rewrite Nat.eqb_refl in Hin'.
Qed.

Lemma find_app_none {A} (p : A -> bool) (l l' : list A) :
  existsb p l = false -> find p (l ++ l') = find p l'.
Proof.
  induction l as [|x l IH]; simpl; [reflexivity|].
  intros H. apply orb_false_iff in H as [-> H]. now apply IH.
Qed.

(** After an upsert the tag read for the domain carries the submitted
    category and provenance [user]. *)
Lemma selectTag_upsertTag (d c : jsstring) (tags : list DomainTag) :
  exists t,
    selectTag (upsertTag d c tags) d = Some t
    /\ tag_domain t = d /\ tag_category t = c /\ tag_source t = USER.
Proof.
  unfold upsertTag, selectTag, selectFirst.
  destruct (existsb _ tags) eqn:E.
  - induction tags as [|t0 tags IH]; simpl in *; [discriminate|].
    destruct (streq (tag_domain t0) d) eqn:F; simpl.
    + rewrite F. apply streq_eq in F. eexists. split; [reflexivity|].
      simpl. auto.
    + rewrite F. apply IH. exact E.
  - rewrite find_app_none by exact E. simpl. rewrite streq_refl.
    eexists. split; [reflexivity|]. simpl. auto.
Qed.

(** An upsert keeps row ids a primary key. *)
Lemma upsertTag_idsUnique (d c : jsstring) (tags : list DomainTag) :
  idsUnique tags -> idsUnique (upsertTag d c tags).
Proof.
  unfold idsUnique, upsertTag. intros H.
  destruct (existsb _ tags).
  - rewrite map_map.
    erewrite map_ext; [exact H|].
    intros t. now destruct (streq (tag_domain t) d).
  - rewrite map_app. simpl. apply NoDup_app; [exact H|repeat constructor; auto|].
    intros a Ha [<-|[]]. now apply nextId_fresh in Ha.
Qed.

Lemma postDomainTag_valid (st : Store) (domain category : jsstring) :
  blank (Some domain) = false -> blank (Some category) = false ->
  postDomainTag st (Some domain) (Some category)
  = (Json (mkTagResult
             (selectTag (upsertTag (cleanDomain domain) category
                                   (domain_tags st))
                        (cleanDomain domain))
             (retroactiveUpdates category (cleanDomain domain)
                                 (citations st))),
     mkStore (clients st) (queries st) (runs st)
             (retroactive category (cleanDomain domain) (citations st))
             (upsertTag (cleanDomain domain) category (domain_tags st))).
Proof.
  intros Hd Hc. unfold postDomainTag. rewrite Hd, Hc. reflexivity.
Qed.

Lemma postDomainTag_invalid (st : Store) (domain category : option jsstring) :
  blank domain || blank category = true ->
  postDomainTag st domain category
  = (Error 400 (str "Domain and category are required"), st).
Proof.
  intros H. unfold postDomainTag.
  destruct domain as [dom|], category as [cat|]; try reflexivity.
  now rewrite H.
Qed.

(** C9.  A tag upsert always records provenance [user].  For every store
    with unique tag ids and every request that passes validation, the tag
    returned and stored for the cleaned domain has provenance [user],
    whatever the provenance of an earlier tag on that domain (a [system]
    seed included), and deleting it by its id succeeds and removes it. *)
Theorem upsert_records_user (st : Store) (domain category : jsstring) :
  idsUnique (domain_tags st) ->
  blank (Some domain) = false ->
  blank (Some category) = false ->
  exists t n st',
    postDomainTag st (Some domain) (Some category)
    = (Json (mkTagResult (Some t) n), st')
    /\ selectTag (domain_tags st') (cleanDomain domain) = Some t
    /\ tag_category t = category
    /\ tag_source t = USER
    /\ fst (deleteDomainTag st' (tag_id t)) = Json tt
    /\ ~ In t (domain_tags (snd (deleteDomainTag st' (tag_id t)))).
Proof.
  intros Hids Hd Hc.
  destruct (selectTag_upsertTag (cleanDomain domain) category (domain_tags st))
    as [t [Hsel [Hdom [Hcat Hsrc]]]].
  rewrite (postDomainTag_valid st _ _ Hd Hc), Hsel.
  do 3 eexists. split; [reflexivity|]. simpl.
  split; [exact Hsel|]. split; [exact Hcat|]. split; [exact Hsrc|].
  pose proof (upsertTag_idsUnique (cleanDomain domain) category _ Hids) as Hids'.
  assert (In t (upsertTag (cleanDomain domain) category (domain_tags st)))
    as Hin.
  { unfold selectTag, selectFirst in Hsel. now apply find_some in Hsel. }
  unfold deleteDomainTag. simpl.
  rewrite (selectFirst_key tag_id _ _ Hids' Hin), Hsrc, USER_not_SYSTEM.
  split; [reflexivity|]. simpl. intros Hin'.
  apply filter_In in Hin' as [_ Hin']. now rewrite Nat.eqb_refl in Hin'.
Qed.

Lemma seeded_wf :
  idsUnique (domain_tags seeded) /\ provenanceKnown (domain_tags seeded).
Proof.
  split.
  - unfold idsUnique. simpl. repeat constructor; simpl; intuition discriminate.
  - intros t [<-|[<-|[]]]; [now left|now right].
Defined.

Lemma deleteDomainTag_fails_closed_witness :
  deleteDomainTag seeded 7 = (Error 404 (str "Tag not found"), seeded)
  /\ deleteDomainTag seeded 1
     = (Error 403 (str "Cannot delete system tags"), seeded)
  /\ fst (deleteDomainTag seeded 2) = Json tt.
Proof.
  destruct seeded_wf as [Hids Hsrc].
  split; [|split].
  - apply (proj1 (deleteDomainTag_fails_closed seeded 7 Hids Hsrc)).
    intros t [<-|[<-|[]]]; discriminate.
  - apply (proj1 (proj2 (deleteDomainTag_fails_closed seeded 1 Hids Hsrc))
             (mkTag 1 (str "coindesk.com") (str "news") SYSTEM));
      [now left|reflexivity|reflexivity].
  - apply (proj2 (proj2 (proj2 (deleteDomainTag_fails_closed seeded 2 Hids Hsrc)))
             (mkTag 2 (str "myblog.org") (str "blog") USER));
      [right; now left|reflexivity|reflexivity].
Defined.

Lemma upsert_records_user_witness :
  exists t n st',
    postDomainTag seeded (Some (str "CoinDesk.com")) (Some (str "aggregator"))
    = (Json (mkTagResult (Some t) n), st')
    /\ selectTag (domain_tags st') (cleanDomain (str "CoinDesk.com")) = Some t
    /\ tag_category t = str "aggregator"
    /\ tag_source t = USER
    /\ fst (deleteDomainTag st' (tag_id t)) = Json tt
    /\ ~ In t (domain_tags (snd (deleteDomainTag st' (tag_id t)))).
Proof.
  apply (upsert_records_user seeded (str "CoinDesk.com") (str "aggregator")).
  - exact (proj1 seeded_wf).
  - reflexivity.
  - reflexivity.
Defined.

End TagFacts.

(** ** The LIKE operator *)

Module LikeFacts.








End LikeFacts.

(** ** Retroactive recategorization *)

Module RetroFacts.

Import TagFacts LikeFacts.

Lemma reached_exact_or_like (clean : jsstring) (c : Citation) :
  reached clean c
  = exactUnknown clean c || likeUnknown (subdomainPattern clean) c.
Proof.
  unfold reached, exactUnknown, likeUnknown.
  destruct (streq (cit_category c) UNKNOWN), (streq (cit_domain c) clean),
    (like _ _); reflexivity.
Qed.

(** The two UPDATE statements together recategorize the reached rows. *)
Lemma retroactive_map (category clean : jsstring) (table : list Citation) :
  retroactive category clean table = map (recategorize category clean) table.
Proof.
  unfold retroactive, updateSubdomains, updateExact, updateCategoryWhere.
  simpl. rewrite map_map. apply map_ext. intros c.
  unfold recategorize. rewrite reached_exact_or_like.
  destruct (exactUnknown clean c) eqn:E; simpl.
  - now destruct (likeUnknown _ (setCategory category c)).
  - reflexivity.
Qed.

Lemma recategorize_idempotent (category clean : jsstring) (c : Citation) :
  recategorize category clean (recategorize category clean c)
  = recategorize category clean c.
Proof.
  unfold recategorize. destruct (reached clean c) eqn:E.
  - now destruct (reached clean (setCategory category c)).
  - now rewrite E.
Qed.

(** Once recategorized to a category other than [unknown], no row is
    reached any more. *)
Lemma reached_recategorize (category clean : jsstring) (c : Citation) :
  category <> UNKNOWN ->
  reached clean (recategorize category clean c) = false.
Proof.
  intros H. unfold recategorize. destruct (reached clean c) eqn:E.
  - unfold reached, setCategory. cbn [cit_category].
    apply streq_neq in H. now rewrite H.
  - exact E.
Qed.

Lemma updateCategoryWhere_none (cond : Citation -> bool)
    (category : jsstring) (table : list Citation) :
  (forall c, In c table -> cond c = false) ->
  updateCategoryWhere cond category table = (table, 0).
Proof.
  intros H. unfold updateCategoryWhere. f_equal.
  - rewrite <- (map_id table) at 2. apply map_ext_in.
    intros c Hin. now rewrite H.
  - induction table as [|c table IH]; [reflexivity|].
    simpl. rewrite H by now left. apply IH. intros; apply H; now right.
Qed.

Lemma retroactiveUpdates_second (category clean : jsstring)
    (table : list Citation) :
  category <> UNKNOWN ->
  retroactiveUpdates category clean (retroactive category clean table) = 0.
Proof.
  intros H. rewrite retroactive_map.
  assert (forall c, In c (map (recategorize category clean) table) ->
                    reached clean c = false) as Hnone.
  { intros c Hin. apply in_map_iff in Hin as [c0 [<- _]].
    now apply reached_recategorize. }
  unfold retroactiveUpdates, updateExact, updateSubdomains.
  rewrite updateCategoryWhere_none.
  - cbn [fst snd]. rewrite updateCategoryWhere_none; [reflexivity|].
    intros c Hin. apply Hnone in Hin.
    rewrite reached_exact_or_like in Hin. now apply orb_false_iff in Hin.
  - intros c Hin. apply Hnone in Hin.
    rewrite reached_exact_or_like in Hin. now apply orb_false_iff in Hin.
Qed.

Lemma existsb_map_ext {A} (p : A -> bool) (f : A -> A) (l : list A) :
  (forall x, p (f x) = p x) -> existsb p (map f l) = existsb p l.
Proof.
  intros H. induction l as [|x l IH]; simpl; [reflexivity|].
  now rewrite H, IH.
Qed.

Lemma upsertTag_idempotent (d c : jsstring) (tags : list DomainTag) :
  upsertTag d c (upsertTag d c tags) = upsertTag d c tags.
Proof.
  set (hit := fun t : DomainTag => streq (tag_domain t) d).
  set (f := fun t : DomainTag =>
              if streq (tag_domain t) d
              then mkTag (tag_id t) (tag_domain t) c USER else t).
  assert (forall t, hit (f t) = hit t) as Hhit.
  { intros t. unfold hit, f.
    destruct (streq (tag_domain t) d) eqn:F; simpl; now rewrite F. }
  assert (forall t, f (f t) = f t) as Hff.
  { intros t. unfold f.
    destruct (streq (tag_domain t) d) eqn:F; simpl; now rewrite F. }
  destruct (existsb hit tags) eqn:E.
  - assert (upsertTag d c tags = map f tags) as ->
        by (unfold upsertTag; fold hit; now rewrite E).
    unfold upsertTag. fold hit. fold f.
    rewrite existsb_map_ext, E by exact Hhit.
    rewrite map_map. now apply map_ext.
  - assert (upsertTag d c tags
            = tags ++ [mkTag (nextId (map tag_id tags)) d c USER]) as ->
        by (unfold upsertTag; fold hit; now rewrite E).
    unfold upsertTag. fold hit. fold f.
    rewrite existsb_app. simpl. unfold hit at 2. simpl. rewrite streq_refl.
    rewrite orb_true_r. rewrite map_app. simpl.
    unfold f at 2. simpl. rewrite streq_refl. f_equal.
    rewrite <- (map_id tags) at 2. apply map_ext_in. intros t Hin.
    unfold f. destruct (streq (tag_domain t) d) eqn:F; [|reflexivity].
    exfalso. assert (existsb hit tags = true)
      by (apply existsb_exists; now exists t).
    congruence.
Qed.









(** C4, as the code has it.  Submitting the same tag twice leaves the
    store as the first submission left it, and for every category other
    than [unknown] the second submission reports 0 rows. *)
Theorem recategorization_idempotent
    (st : Store) (domain category : jsstring) :
  blank (Some domain) = false ->
  blank (Some category) = false ->
  let st1 := snd (postDomainTag st (Some domain) (Some category)) in
  let second := postDomainTag st1 (Some domain) (Some category) in
  snd second = st1
  /\ (category <> UNKNOWN ->
      exists t, fst second = Json (mkTagResult (Some t) 0)).
Proof.
  intros Hd Hc st1 second. subst second st1.
  rewrite (postDomainTag_valid st _ _ Hd Hc). cbn [snd].
  rewrite (postDomainTag_valid _ _ _ Hd Hc).
  cbn [fst snd clients queries runs citations domain_tags].
  rewrite upsertTag_idempotent. split.
  - f_equal. rewrite !retroactive_map, map_map.
    apply map_ext. intros c. apply recategorize_idempotent.
  - intros Hne. rewrite retroactiveUpdates_second by exact Hne.
    destruct (selectTag_upsertTag (cleanDomain domain) category
                                  (domain_tags st)) as [t [-> _]].
    now exists t.
Qed.

Lemma recategorization_idempotent_witness :
  snd (postDomainTag
         (snd (postDomainTag history (Some (str "example.com"))
                             (Some (str "news"))))
         (Some (str "example.com")) (Some (str "news")))
  = snd (postDomainTag history (Some (str "example.com")) (Some (str "news")))
  /\ exists t,
       fst (postDomainTag
              (snd (postDomainTag history (Some (str "example.com"))
                                  (Some (str "news"))))
              (Some (str "example.com")) (Some (str "news")))
       = Json (mkTagResult (Some t) 0).
Proof.
  pose proof (recategorization_idempotent history (str "example.com")
                (str "news") eq_refl eq_refl) as [H1 H2].
  split; [exact H1|]. apply H2. discriminate.
Defined.

(** C4, as stated, fails for the category [unknown]: the rows the tag
    reaches stay [unknown], so the second submission selects them again
    and reports as many rows as the first. *)
Lemma second_run_reports_rows :
  let st1 := snd (postDomainTag history (Some (str "example.com"))
                                (Some UNKNOWN)) in
  fst (postDomainTag history (Some (str "example.com")) (Some UNKNOWN))
  = Json (mkTagResult (Some (mkTag 1 (str "example.com") UNKNOWN USER)) 2)
  /\ fst (postDomainTag st1 (Some (str "example.com")) (Some UNKNOWN))
     = Json (mkTagResult (Some (mkTag 1 (str "example.com") UNKNOWN USER)) 2).
Proof. split; reflexivity. Qed.




End RetroFacts.

(** ** The run recorder *)

Module RecorderFacts.

Section Recorder.

Variable hostname : jsstring -> option jsstring.
Variable runInsertFails : Run -> bool.
Variable citationInsertFails : Citation -> bool.
Variable storageError : jsstring.
Variable fetch : nat -> jsstring -> upstream.

(** The handlers and predicates in this environment. *)
Local Abbreviation analyze' :=
  (analyze hostname runInsertFails citationInsertFails).
Local Abbreviation batchItem' :=
  (batchItem hostname runInsertFails citationInsertFails storageError fetch).
Local Abbreviation batchLoop' :=
  (batchLoop hostname runInsertFails citationInsertFails storageError fetch).
Local Abbreviation analyzeBatch' :=
  (analyzeBatch hostname runInsertFails citationInsertFails storageError fetch).
Local Abbreviation recorded' := (recorded citationInsertFails).
Local Abbreviation healthy' := (healthy runInsertFails citationInsertFails).

Lemma mapFrom_length {A B} (f : nat -> A -> B) (i : nat) (l : list A) :
  length (mapFrom f i l) = length l.
Proof.
  revert i. induction l as [|x l IH]; intros i; simpl; [reflexivity|].
  now rewrite IH.
Qed.

Lemma categorize_length tags owned cits :
  length (categorize hostname tags owned cits) = length cits.
Proof. apply mapFrom_length. Qed.

Lemma mapFrom_positions (dom cat : jsstring -> jsstring) (k : nat)
    (cits : list jsstring) :
  map c_position
      (mapFrom (fun i url => mkCategorized url (dom url) (i + 1) (cat url))
               k cits)
  = seq (k + 1) (length cits).
Proof.
  revert k. induction cits as [|url cits IH]; intros k; simpl; [reflexivity|].
  now rewrite IH.
Qed.

(** Positions are the 1-based ranks. *)
Lemma categorize_positions tags owned cits :
  map c_position (categorize hostname tags owned cits)
  = seq 1 (length cits).
Proof. unfold categorize. apply (mapFrom_positions _ _ 0). Qed.

(** The rows a successful loop of inserts appends. *)
Lemma insertCitations_Some runId items table table' :
  insertCitations citationInsertFails runId items table = Some table' ->
  exists rows,
    table' = table ++ rows
    /\ length rows = length items
    /\ Forall (fun r => cit_run_id r = runId) rows
    /\ map cit_position rows = map c_position items.
Proof.
  revert table. induction items as [|c items IH]; intros table H; simpl in H.
  - injection H as <-. exists []. rewrite app_nil_r. repeat split. constructor.
  - destruct (citationInsertFails _) eqn:F; [discriminate|].
    apply IH in H as [rows [-> [Hlen [Hall Hpos]]]].
    eexists (_ :: rows). rewrite <- app_assoc. split; [reflexivity|].
    simpl. split; [now rewrite Hlen|]. split; [now constructor|].
    now rewrite Hpos.
Qed.

(** A failed loop of inserts met a row the store refused. *)
Lemma insertCitations_None runId items table :
  insertCitations citationInsertFails runId items table = None ->
  exists row, cit_run_id row = runId /\ citationInsertFails row = true.
Proof.
  revert table. induction items as [|c items IH]; intros table H; simpl in H.
  - discriminate.
  - destruct (citationInsertFails _) eqn:F.
    + eexists. split; [|exact F]. reflexivity.
    + now apply IH in H.
Qed.

(** The three ways the recorder ends. *)
Lemma recordRun_cases st queryId data text model cost count owned items :
  let run := newRun st queryId data text model cost count owned in
  let out := recordRun runInsertFails citationInsertFails st queryId data
                       text model cost count owned items in
  (runInsertFails run = true /\ out = (None, st))
  \/ (exists rows,
         runInsertFails run = false
         /\ out = (Some (run_id run), plus st run rows)
         /\ length rows = length items
         /\ Forall (fun r => cit_run_id r = run_id run) rows
         /\ map cit_position rows = map c_position items)
  \/ (exists row,
         runInsertFails run = false
         /\ out = (None, plus st run [])
         /\ cit_run_id row = run_id run /\ citationInsertFails row = true).
Proof.
  intros run out. subst out. unfold recordRun. cbv zeta.
  fold (newRun st queryId data text model cost count owned). fold run.
  destruct (runInsertFails run) eqn:R.
  - left. now split.
  - unfold transaction. cbn [citations withRuns].
    destruct (insertCitations _ _ items (citations st)) as [table'|] eqn:I;
      cbn [option_map].
    + right. left.
      apply insertCitations_Some in I as [rows [-> [Hlen [Hall Hp]]]].
      exists rows. repeat split; assumption.
    + right. right.
      apply insertCitations_None in I as [row [Hrow Hfail]].
      exists row. repeat split; try assumption.
      unfold plus, withRuns. now rewrite app_nil_r.
Qed.

Lemma recordRun_recorded st queryId data text model cost owned items :
  map c_position items = seq 1 (length items) ->
  recorded' st
    (snd (recordRun runInsertFails citationInsertFails st queryId data text
                    model cost (length items) owned items))
    (fst (recordRun runInsertFails citationInsertFails st queryId data text
                    model cost (length items) owned items)).
Proof.
  intros Hpos.
  destruct (recordRun_cases st queryId data text model cost (length items)
                            owned items)
    as [[_ ->]|[(rows & _ & -> & Hlen & Hall & Hp)|(row & _ & -> & Hr & Hf)]].
  - left. now split.
  - right. left. do 2 eexists. split; [reflexivity|]. split; [reflexivity|].
    unfold completeFor. cbn [newRun run_citation_count run_id] in *.
    split; [exact Hlen|]. split; [exact Hall|].
    now rewrite Hp, Hpos, Hlen.
  - right. right. do 2 eexists. split; [reflexivity|].
    split; [reflexivity|]. split; [exact Hr|exact Hf].
Qed.

(** C1, as the code has it.  The run row is inserted on its own and the
    citation rows in one transaction after it.  So a request handled by the
    single handler, and an item handled by the batch loop, leaves the store
    in one of three states: unchanged; with the new run and its complete
    citation list, the run id being reported; or, when the store refuses a
    citation row, with the new run row alone and no run id reported.  A
    citation list is never stored in part. *)
Theorem run_then_citations (st : Store) :
  (forall req up,
      recorded' st (snd (analyze' st req up))
               (responseRunId (fst (analyze' st req up))))
  /\ (forall model i queryId,
         recorded' st (snd (batchItem' model i queryId st))
                  (entryRunId (fst (batchItem' model i queryId st)))).
Proof.
  assert (forall s : Store, recorded' s s None) as Hsame
      by (intros; left; now split).
  split.
  - intros req up. unfold analyze.
    destruct (falsy (req_query req)); [apply Hsame|].
    destruct (falsy (req_apiKey req)); [apply Hsame|].
    destruct up as [data|status text|message]; try apply Hsame.
    destruct (truthyId (req_queryId req)) as [queryId|];
      [|apply Hsame].
    match goal with
    | |- context [recordRun _ _ _ _ ?d ?t ?m ?c _ ?o ?items] =>
        assert (map c_position items = seq 1 (length items)) as Hpos
          by (rewrite categorize_length; apply categorize_positions);
        pose proof (recordRun_recorded st queryId d t m c o items Hpos) as H
    end.
    rewrite categorize_length in H.
    destruct (recordRun _ _ _ _ _ _ _ _ _ _ _) as [[runId|] st'];
      exact H.
  - intros model i queryId. unfold batchItem.
    destruct (selectFirst _ (queries st)) as [q|]; [|apply Hsame].
    destruct (fetch i (query_text q)) as [data|status text|message];
      try apply Hsame.
    match goal with
    | |- context [recordRun _ _ _ _ ?d ?t ?m ?c _ ?o ?items] =>
        assert (map c_position items = seq 1 (length items)) as Hpos
          by (rewrite categorize_length; apply categorize_positions);
        pose proof (recordRun_recorded st queryId d t m c o items Hpos) as H
    end.
    rewrite categorize_length in H.
    destruct (recordRun _ _ _ _ _ _ _ _ _ _ _) as [[runId|] st'];
      exact H.
Qed.

(** *** The batch loop *)

Lemma grows_refl (st : Store) : grows st st.
Proof.
  repeat split; try reflexivity.
  - exists []. rewrite app_nil_r. split; [reflexivity|]. intros r [].
  - exists []. now rewrite app_nil_r.
Qed.

Lemma grows_trans (a b c : Store) : grows a b -> grows b c -> grows a c.
Proof.
  intros (Hc1 & Hq1 & Ht1 & (rs1 & Hr1 & Hq1') & (cs1 & Hcs1))
         (Hc2 & Hq2 & Ht2 & (rs2 & Hr2 & Hq2') & (cs2 & Hcs2)).
  repeat split; try congruence.
  - exists (rs1 ++ rs2). rewrite Hr2, Hr1, app_assoc. split; [reflexivity|].
    intros r Hin. apply in_app_or in Hin as [Hin|Hin].
    + now apply Hq1'.
    + rewrite <- Hq1. now apply Hq2'.
  - exists (cs1 ++ cs2). now rewrite Hcs2, Hcs1, app_assoc.
Qed.

Lemma selectFirst_query (st : Store) (queryId : nat) (q : Query) :
  selectFirst (fun q => query_id q =? queryId) (queries st) = Some q ->
  In q (queries st) /\ query_id q = queryId.
Proof.
  unfold selectFirst. intros H. apply find_some in H as [Hin E].
  apply Nat.eqb_eq in E. now split.
Qed.

Lemma plus_grows (st : Store) (run : Run) (rows : list Citation) :
  (exists q, In q (queries st) /\ query_id q = run_query_id run) ->
  grows st (plus st run rows).
Proof.
  intros Hq. repeat split; try reflexivity.
  - exists [run]. split; [reflexivity|]. now intros r [<-|[]].
  - now exists rows.
Qed.

Lemma recordRun_grows st queryId data text model cost count owned items :
  (exists q, In q (queries st) /\ query_id q = queryId) ->
  grows st
    (snd (recordRun runInsertFails citationInsertFails st queryId data text
                    model cost count owned items)).
Proof.
  intros Hq.
  destruct (recordRun_cases st queryId data text model cost count owned items)
    as [[_ ->]|[(rows & _ & -> & _)|(row & _ & -> & _)]]; cbn [snd].
  - apply grows_refl.
  - now apply plus_grows.
  - now apply plus_grows.
Qed.

Lemma batchItem_grows model i queryId st :
  grows st (snd (batchItem' model i queryId st)).
Proof.
  unfold batchItem.
  destruct (selectFirst _ (queries st)) as [q|] eqn:Q; [|apply grows_refl].
  apply selectFirst_query in Q.
  destruct (fetch i (query_text q)) as [data|status text|message];
    try apply grows_refl.
  match goal with
  | |- context [recordRun _ _ _ _ ?d ?t ?m ?c ?n ?o ?items] =>
      pose proof (recordRun_grows st queryId d t m c n o items
                                  (ex_intro _ q Q)) as H
  end.
  destruct (recordRun _ _ _ _ _ _ _ _ _ _ _) as [[runId|] st']; exact H.
Qed.

Lemma batchLoop_grows model ids :
  forall k st, grows st (snd (batchLoop' model k ids st)).
Proof.
  induction ids as [|id ids IH]; intros k st; simpl; [apply grows_refl|].
  pose proof (batchItem_grows model k id st) as H1.
  destruct (batchItem' model k id st) as [e st1].
  pose proof (IH (S k) st1) as H2.
  destruct (batchLoop' model (S k) ids st1) as [es st2].
  exact (grows_trans _ _ _ H1 H2).
Qed.

Lemma batchItem_queryId model i queryId st :
  entryQueryId (fst (batchItem' model i queryId st)) = queryId.
Proof.
  unfold batchItem.
  destruct (selectFirst _ (queries st)) as [q|]; [|reflexivity].
  destruct (fetch i (query_text q)); try reflexivity.
  now destruct (recordRun _ _ _ _ _ _ _ _ _ _ _) as [[runId|] st'].
Qed.

(** One entry per id, in the order of the ids. *)
Lemma batchLoop_queryIds model ids :
  forall k st, map entryQueryId (fst (batchLoop' model k ids st)) = ids.
Proof.
  induction ids as [|id ids IH]; intros k st; simpl; [reflexivity|].
  pose proof (batchItem_queryId model k id st) as H1.
  destruct (batchItem' model k id st) as [e st1].
  pose proof (IH (S k) st1) as H2.
  destruct (batchLoop' model (S k) ids st1) as [es st2].
  simpl in *. now rewrite H1, H2.
Qed.

(** The entry at an index is the one its iteration pushes, on a store
    grown from the initial one and growing into the final one. *)
Lemma batchLoop_nth model ids :
  forall k st i id,
    nth_error ids i = Some id ->
    exists sti,
      grows st sti
      /\ grows (snd (batchItem' model (k + i) id sti))
               (snd (batchLoop' model k ids st))
      /\ nth_error (fst (batchLoop' model k ids st)) i
         = Some (fst (batchItem' model (k + i) id sti)).
Proof.
  induction ids as [|id0 ids IH]; intros k st i id Hi.
  - destruct i; discriminate.
  - destruct i as [|j]; simpl in Hi.
    + injection Hi as <-. exists st. rewrite Nat.add_0_r. simpl.
      destruct (batchItem' model k id0 st) as [e st1].
      pose proof (batchLoop_grows model ids (S k) st1) as H2.
      destruct (batchLoop' model (S k) ids st1) as [es st2].
      split; [apply grows_refl|]. now split.
    + pose proof (batchItem_grows model k id0 st) as H1.
      simpl. destruct (batchItem' model k id0 st) as [e st1].
      destruct (IH (S k) st1 j id Hi) as [sti [G1 [G2 Hn]]].
      exists sti. replace (k + S j) with (S k + j) by lia.
      destruct (batchLoop' model (S k) ids st1) as [es st2].
      split; [exact (grows_trans _ _ _ H1 G1)|]. now split.
Qed.

Lemma selectFirst_noQuery (st : Store) (id : nat) :
  noQuery st id ->
  selectFirst (fun q => query_id q =? id) (queries st) = None.
Proof.
  intros H. unfold selectFirst.
  destruct (find _ (queries st)) as [q|] eqn:E; [|reflexivity].
  apply find_some in E as [Hin E]. apply Nat.eqb_eq in E.
  now apply H in Hin.
Qed.

(** C7.  A batch absorbs the failure of an item.  For a request that
    passes validation the answer holds the [results] array, and:
    - it has one entry per submitted id, in the order of the ids;
    - an id without a query gives the not-found entry at its index, and no
      run is stored for it;
    - for an id with a query, an upstream refusal or exception gives an
      error entry at its index;
    - and an upstream success gives, when the store refuses nothing, a
      run entry at its index whose run is new in the final store together
      with its complete citation list,
    whatever happens to the other ids of the batch. *)
Theorem batch_absorbs_item_failures
    (st : Store) (ids : list nat) (apiKey model : option jsstring) :
  ids <> [] ->
  falsy apiKey = false ->
  exists results total st',
    analyzeBatch' st (Some ids) apiKey model
    = (Json (mkBatchResult results total), st')
    /\ map entryQueryId results = ids
    /\ (forall i id,
          nth_error ids i = Some id -> noQuery st id ->
          nth_error results i = Some (NotFoundEntry id)
          /\ forall run, In run (runs st') -> run_query_id run = id ->
                         In run (runs st))
    /\ (forall i id q,
          nth_error ids i = Some id ->
          selectFirst (fun q => query_id q =? id) (queries st) = Some q ->
          match fetch i (query_text q) with
          | Refused status text =>
              nth_error results i
              = Some (ApiErrorEntry id (query_text q) status text)
          | Failed message =>
              nth_error results i
              = Some (ThrownEntry id (query_text q) message)
          | Responded data =>
              healthy' ->
              exists run rows items,
                nth_error results i
                = Some (RunEntry id (query_text q) (run_id run)
                                 (run_citation_count run)
                                 (run_owned_citation_count run)
                                 (run_cost_estimate run) items)
                /\ run_query_id run = id
                /\ run_citation_count run
                   = length (orEmpty (data_citations data))
                /\ In run (runs st') /\ ~ In run (runs st)
                /\ completeFor run rows
                /\ exists pre post, citations st' = pre ++ rows ++ post
          end).
Proof.
  intros Hne Hkey. unfold analyzeBatch.
  destruct ids as [|id0 ids0] eqn:Eids; [contradiction|]. rewrite <- Eids.
  rewrite Hkey.
  pose proof (batchLoop_queryIds (modelOf model) ids 0 st) as Hmap.
  pose proof (batchLoop_grows (modelOf model) ids 0 st) as Hgrow.
  pose proof (batchLoop_nth (modelOf model) ids 0 st) as Hnth.
  destruct (batchLoop' (modelOf model) 0 ids st) as [results st'].
  cbn [fst snd] in *.
  do 3 eexists. split; [reflexivity|]. split; [exact Hmap|]. split.
  - intros i id Hi Hno.
    destruct (Hnth i id Hi) as [sti [G1 [_ Hn]]]. split.
    + rewrite Hn. unfold batchItem.
      destruct G1 as (_ & Hq & _). rewrite Hq.
      now rewrite selectFirst_noQuery.
    + intros run Hin Hid.
      destruct Hgrow as (_ & _ & _ & (rs & Hr & Hown) & _).
      rewrite Hr in Hin. apply in_app_or in Hin as [Hin|Hin]; [exact Hin|].
      destruct (Hown run Hin) as [q [Hq Hqid]].
      exfalso. apply (Hno q Hq). congruence.
  - intros i id q Hi Hsel.
    destruct (Hnth i id Hi) as [sti [G1 [G2 Hn]]]. simpl in Hn, G2.
    pose proof G1 as (_ & Hq & _ & (rs & Hr & _) & _).
    unfold batchItem in Hn, G2. rewrite Hq, Hsel in Hn, G2.
    destruct (fetch i (query_text q)) as [data|status text|message];
      try exact Hn.
    intros [Hrun Hcit].
    match type of Hn with
    | context [recordRun _ _ _ _ ?d ?t ?m ?c ?n ?o ?items] =>
        destruct (recordRun_cases sti id d t m c n o items)
          as [[F _]|[(rows & _ & E & Hlen & Hall & Hp)|(row & _ & _ & _ & F)]];
        [rewrite Hrun in F; discriminate| |rewrite Hcit in F; discriminate];
        rewrite E in Hn, G2; cbn [fst snd] in Hn, G2;
        set (run := newRun sti id d t m c n o) in *;
        exists run, rows, items
    end.
    split; [exact Hn|]. split; [reflexivity|]. split; [reflexivity|].
    destruct G2 as (_ & _ & _ & (rs2 & Hr2 & _) & (cs2 & Hc2)).
    cbn [plus runs citations] in Hr2, Hc2.
    split; [rewrite Hr2; apply in_or_app; left; apply in_or_app; right;
            now left|].
    split.
    + intros Hin.
      apply (TagFacts.nextId_fresh (map run_id (runs sti))).
      change (nextId (map run_id (runs sti))) with (run_id run).
      apply in_map. rewrite Hr. apply in_or_app. now left.
    + split.
      * unfold completeFor. cbn [run newRun run_citation_count run_id].
        rewrite categorize_length in Hlen.
        split; [exact Hlen|]. split; [exact Hall|].
        now rewrite Hp, categorize_positions, Hlen.
      * exists (citations sti), cs2. now rewrite Hc2, app_assoc.
Qed.

End Recorder.

(** *** Examples *)

(** The example of the specification: two citations, one of them owned. *)
Example analyze_categorizes :
  analyze simpleHostname accept accept acme request (Responded answer)
  = (Json (mkAnalyzeResult (Some 1) (str "An answer.")
             [mkCategorized (str "https://www.coindesk.com/a")
                            (str "coindesk.com") 1 (str "news");
              mkCategorized (str "https://sub.owned.com/x")
                            (str "sub.owned.com") 2 (str "owned")]
             2 1 (str "sonar") (estimateCost (str "sonar") 1)),
     mkStore (clients acme) (queries acme)
             [mkRun 1 1 (str "{raw}") (str "An answer.") (str "sonar")
                    (estimateCost (str "sonar") 1) 2 1]
             [mkCitation 1 1 (str "https://www.coindesk.com/a")
                         (str "coindesk.com") 1 (str "news");
              mkCitation 2 1 (str "https://sub.owned.com/x")
                         (str "sub.owned.com") 2 (str "owned")]
             (domain_tags acme)).
Proof. reflexivity. Qed.

(** C1, as stated, fails.  When the store refuses the second of two
    citation rows, the transaction takes the first citation row back, the
    handler answers 500, and the run row, inserted before the transaction
    began, stays in the store: a run that counts two citations and has
    none. *)
Lemma run_stored_without_citations :
  let out := analyze simpleHostname accept refuseSecond acme request
                     (Responded answer) in
  fst out = Error 500 (str "Failed to query Perplexity")
  /\ runs (snd out)
     = [mkRun 1 1 (str "{raw}") (str "An answer.") (str "sonar")
              (estimateCost (str "sonar") 1) 2 1]
  /\ citations (snd out) = []
  /\ snd out <> acme.
Proof.
  repeat split; try reflexivity. discriminate.
Qed.

(** The example of the specification: three ids, the second unknown. *)
Example batch_of_three :
  exists e1 e3 total st',
    analyzeBatch simpleHostname accept accept (str "storage") fetchAnswer
                 acme (Some [1; 9; 2]) (Some (str "key")) None
    = (Json (mkBatchResult [e1; NotFoundEntry 9; e3] total), st')
    /\ entryRunId e1 = Some 1 /\ entryRunId e3 = Some 2
    /\ map run_query_id (runs st') = [1; 2]
    /\ map cit_run_id (citations st') = [1; 1; 2; 2].
Proof. do 4 eexists. repeat split. Qed.

Lemma batch_absorbs_item_failures_witness :
  exists results total st',
    analyzeBatch simpleHostname accept accept (str "storage") fetchAnswer
                 acme (Some [1; 9; 2]) (Some (str "key")) None
    = (Json (mkBatchResult results total), st')
    /\ map entryQueryId results = [1; 9; 2]
    /\ nth_error results 1 = Some (NotFoundEntry 9)
    /\ (forall run, In run (runs st') -> run_query_id run = 9 ->
                    In run (runs acme)).
Proof.
  assert ([1; 9; 2] <> []) as Hne by discriminate.
  destruct (batch_absorbs_item_failures simpleHostname accept accept
              (str "storage") fetchAnswer acme [1; 9; 2] (Some (str "key"))
              None Hne eq_refl)
    as (results & total & st' & E & Hmap & Hnot & _).
  exists results, total, st'. split; [exact E|]. split; [exact Hmap|].
  apply (Hnot 1 9 eq_refl).
  intros q [<-|[<-|[]]]; discriminate.
Defined.

End RecorderFacts.

(** ** Response keys *)

Module CamelFacts.

Lemma upperChar_lower (c : ascii) :
  isLower c = true ->
  isLower (upperChar c) = false /\ isUpper (upperChar c) = true
  /\ lowerChar (upperChar c) = c.
Proof.
  destruct c as [[] [] [] [] [] [] [] []]; intros H;
    try discriminate H; repeat split; reflexivity.
Qed.

Lemma underscore_not_upper : isUpper "_" = false.
Proof. reflexivity. Qed.

(** Induction two characters at a time. *)
Lemma by_length (P : jsstring -> Prop) :
  (forall s, (forall t, length t < length s -> P t) -> P s) ->
  forall s, P s.
Proof.
  intros H s. remember (length s) as n eqn:E.
  revert s E. induction n as [n IH] using lt_wf_ind.
  intros s ->. apply H. intros t Ht. now apply (IH (length t)).
Qed.

Lemma toCamel_step (x c : ascii) (rest : jsstring) :
  toCamel (x :: c :: rest)
  = if Ascii.eqb x "_" && isLower c
    then upperChar c :: toCamel rest
    else x :: toCamel (c :: rest).
Proof. reflexivity. Qed.

Lemma toCamel_firstLower (s : jsstring) :
  firstLower s = false -> firstLower (toCamel s) = false.
Proof.
  destruct s as [|x [|c rest]]; simpl; auto.
  intros Hx. destruct (Ascii.eqb x "_" && isLower c) eqn:E; simpl; auto.
  apply andb_true_iff in E as [_ E]. now apply upperChar_lower.
Qed.

Lemma hasSnake_cons (x : ascii) (s : jsstring) :
  hasSnake (x :: s) = (Ascii.eqb x "_" && firstLower s) || hasSnake s.
Proof.
  destruct s as [|c rest]; simpl; [now rewrite andb_false_r|reflexivity].
Qed.

(** A converted key holds no underscore followed by a small letter. *)
Lemma toCamel_settled : forall s, hasSnake (toCamel s) = false.
Proof.
  apply (by_length (fun s => hasSnake (toCamel s) = false)).
  intros [|x [|c rest]] IH; try reflexivity.
  rewrite toCamel_step. destruct (Ascii.eqb x "_" && isLower c) eqn:E.
  - rewrite hasSnake_cons, IH by (simpl; lia).
    rewrite orb_false_r.
    destruct (upperChar_lower c) as (_ & Hu & _);
      [now apply andb_true_iff in E|].
    destruct (Ascii.eqb (upperChar c) "_") eqn:F; [|reflexivity].
    apply Ascii.eqb_eq in F. rewrite F in Hu. discriminate.
  - rewrite hasSnake_cons, IH by (simpl; lia).
    rewrite orb_false_r.
    destruct (Ascii.eqb x "_") eqn:F; [|reflexivity].
    rewrite andb_true_l in *. apply toCamel_firstLower. exact E.
Qed.

(** A key without such an underscore is left as it is. *)
Lemma toCamel_fixed : forall s, hasSnake s = false -> toCamel s = s.
Proof.
  apply (by_length (fun s => hasSnake s = false -> toCamel s = s)).
  intros [|x [|c rest]] IH H; try reflexivity.
  rewrite hasSnake_cons in H. apply orb_false_iff in H as [H1 H2].
  rewrite toCamel_step. simpl in H1. rewrite H1.
  f_equal. apply IH; [simpl; lia|exact H2].
Qed.

(** X1.  Converting a key twice is converting it once: a converted key
    holds no underscore followed by a small letter, and such a key is
    left as it is. *)
Theorem toCamel_idempotent (s : jsstring) :
  hasSnake (toCamel s) = false /\ toCamel (toCamel s) = toCamel s.
Proof.
  split; [apply toCamel_settled|].
  apply toCamel_fixed, toCamel_settled.
Qed.

Lemma unCamel_toCamel :
  forall s, noUpper s -> unCamel (toCamel s) = s.
Proof.
  apply (by_length (fun s => noUpper s -> unCamel (toCamel s) = s)).
  intros [|x [|c rest]] IH H; try reflexivity.
  - simpl. now rewrite (H x) by now left.
  - rewrite toCamel_step. destruct (Ascii.eqb x "_" && isLower c) eqn:E.
    + apply andb_true_iff in E as [Ex Ec]. apply Ascii.eqb_eq in Ex. subst x.
      destruct (upperChar_lower c Ec) as (_ & Hu & Hl).
      cbn [unCamel]. rewrite Hu, Hl. do 2 f_equal.
      apply IH; [simpl; lia|]. intros a Ha. apply H. now do 2 right.
    + cbn [unCamel]. rewrite (H x) by now left. f_equal.
      apply IH; [simpl; lia|]. intros a Ha. apply H. now right.
Qed.

(** X2.  Keys without capital letters, the column names of the store, are
    never merged by the conversion: two such keys with the same converted
    form are equal, and a row with distinct such keys has distinct
    converted keys, so [Object.fromEntries] drops no column. *)
Theorem toCamel_keeps_keys_apart :
  (forall s t, noUpper s -> noUpper t -> toCamel s = toCamel t -> s = t)
  /\ (forall V (row : list (jsstring * V)),
        (forall kv, In kv row -> noUpper (fst kv)) ->
        NoDup (map fst row) ->
        NoDup (map fst (camelEntries row))).
Proof.
  assert (forall s t, noUpper s -> noUpper t -> toCamel s = toCamel t ->
                      s = t) as Hinj.
  { intros s t Hs Ht E.
    rewrite <- (unCamel_toCamel s Hs), <- (unCamel_toCamel t Ht).
    now rewrite E. }
  split; [exact Hinj|].
  intros V row Hup Hnd. unfold camelEntries. rewrite map_map. simpl.
  induction row as [|kv row IH]; simpl; [constructor|].
  inversion Hnd as [|? ? Hnotin Hnd']; subst.
  constructor.
  - intros Hin. apply in_map_iff in Hin as [kv' [E Hin']].
    apply Hnotin. apply in_map_iff. exists kv'. split; [|exact Hin'].
    apply Hinj; [apply Hup; now right|apply Hup; now left|exact E].
  - apply IH; [|exact Hnd']. intros kv' Hin'. apply Hup. now right.
Qed.

Lemma toCamel_keeps_keys_apart_witness :
  NoDup (map fst (camelEntries
                    [(str "owned_domains", 1); (str "created_at", 2);
                     (str "client_id", 3)])).
Proof.
  apply (proj2 toCamel_keeps_keys_apart nat).
  - intros kv [<-|[<-|[<-|[]]]] c Hc; simpl in Hc;
      repeat (destruct Hc as [<-|Hc]; [reflexivity|]); destruct Hc.
  - simpl. repeat constructor; simpl; intuition discriminate.
Defined.

End CamelFacts.

(** ** Parent domains as suffixes *)

Module ParentSuffix.

Import ResolverFacts ParentDomain.

Lemma join_cons (sep : ascii) (p : jsstring) (ps : list jsstring) :
  ps <> [] -> join sep (p :: ps) = p ++ sep :: join sep ps.
Proof. destruct ps; [contradiction|reflexivity]. Qed.

Lemma join_app (sep : ascii) (l1 l2 : list jsstring) :
  l1 <> [] -> l2 <> [] ->
  join sep (l1 ++ l2) = join sep l1 ++ sep :: join sep l2.
Proof.
  intros H1 H2. induction l1 as [|p l1 IH]; [contradiction|].
  destruct l1 as [|q l1].
  - simpl app. now rewrite join_cons.
  - change ((p :: q :: l1) ++ l2) with (p :: ((q :: l1) ++ l2)).
    rewrite join_cons by discriminate.
    rewrite IH by discriminate.
    rewrite (join_cons sep p) by discriminate.
    now rewrite <- app_assoc.
Qed.

(** The last [n] labels of a string with more than [n] labels, joined,
    are what follows some dot of the string. *)
Lemma sliceLast_suffix (n : nat) (d : jsstring) :
  0 < n < length (split dot d) ->
  exists p, d = p ++ dot :: join dot (sliceLast n (split dot d)).
Proof.
  intros Hn. set (parts := split dot d) in *.
  exists (join dot (firstn (length parts - n) parts)).
  rewrite <- (join_split dot d) at 1. fold parts.
  rewrite <- (firstn_skipn (length parts - n) parts) at 1.
  apply join_app.
  - intros E. apply (f_equal (@length _)) in E.
    rewrite length_firstn in E. simpl in E. lia.
  - intros E. apply skipn_all_iff in E. lia.
Qed.

Lemma split_no_dot (sep : ascii) (s : jsstring) :
  Forall (fun p => ~ In sep p) (split sep s).
Proof.
  induction s as [|c s IH]; simpl.
  - constructor; [intros []|constructor].
  - destruct (Ascii.eqb c sep) eqn:E.
    + constructor; [intros []|exact IH].
    + destruct (split sep s) as [|p ps]; inversion IH; subst.
      * constructor; [|constructor]. intros [->|[]].
        now rewrite Ascii.eqb_refl in E.
      * constructor; [|assumption]. intros [->|Hin]; [|contradiction].
        now rewrite Ascii.eqb_refl in E.
Qed.

Lemma split_label (sep : ascii) (p : jsstring) :
  ~ In sep p -> split sep p = [p].
Proof.
  induction p as [|c p IH]; intros H; [reflexivity|].
  simpl. destruct (Ascii.eqb c sep) eqn:E.
  - apply Ascii.eqb_eq in E. subst. exfalso. apply H. now left.
  - rewrite IH; [reflexivity|]. intros Hin. apply H. now right.
Qed.

Lemma split_label_sep (sep : ascii) (p r : jsstring) :
  ~ In sep p -> split sep (p ++ sep :: r) = p :: split sep r.
Proof.
  induction p as [|c p IH]; intros H; simpl.
  - now rewrite Ascii.eqb_refl.
  - destruct (Ascii.eqb c sep) eqn:E.
    + apply Ascii.eqb_eq in E. subst. exfalso. apply H. now left.
    + rewrite IH; [reflexivity|]. intros Hin. apply H. now right.
Qed.

(** Splitting the join of dot-free labels gives the labels back. *)
Lemma split_join (sep : ascii) (l : list jsstring) :
  l <> [] -> Forall (fun p => ~ In sep p) l ->
  split sep (join sep l) = l.
Proof.
  intros Hne Hall. induction l as [|p l IH]; [contradiction|].
  inversion Hall as [|? ? Hp Hl]; subst.
  destruct l as [|q l].
  - simpl. now apply split_label.
  - rewrite join_cons by discriminate.
    rewrite split_label_sep by assumption.
    now rewrite IH by (discriminate || assumption).
Qed.

Lemma Forall_skipn {A} (P : A -> Prop) (n : nat) (l : list A) :
  Forall P l -> Forall P (skipn n l).
Proof.
  revert l. induction n as [|n IH]; intros l H; [exact H|].
  destruct l as [|x l]; [constructor|].
  inversion H; subst. now apply IH.
Qed.

(** The labels of the last [n] labels joined are those [n] labels. *)
Lemma labels_sliceLast (n : nat) (d : jsstring) :
  0 < n <= length (labels d) ->
  labels (join dot (sliceLast n (labels d))) = sliceLast n (labels d)
  /\ length (sliceLast n (labels d)) = n.
Proof.
  intros Hn.
  assert (length (sliceLast n (labels d)) = n) as Hlen
      by (unfold sliceLast; rewrite length_skipn; lia).
  split; [|exact Hlen].
  unfold labels at 1. apply split_join.
  - intros E. rewrite E in Hlen. simpl in Hlen. lia.
  - unfold sliceLast. apply Forall_skipn. apply split_no_dot.
Qed.

(** The parent of a domain with more than two labels is its last two or
    its last three labels joined. *)
Lemma getParentDomain_slice (d : jsstring) :
  2 < length (labels d) ->
  exists n,
    (n = 2 \/ (n = 3 /\ 3 < length (labels d)))
    /\ getParentDomain d = join dot (sliceLast n (labels d)).
Proof.
  intros H. unfold getParentDomain. fold (labels d).
  destruct (length (labels d) <=? 2) eqn:E; [apply Nat.leb_le in E; lia|].
  destruct (COMPOUND_TLDS_has _ && (3 <? length (labels d))) eqn:F.
  - exists 3. split; [|reflexivity]. right. split; [reflexivity|].
    apply andb_true_iff in F as [_ F]. now apply Nat.ltb_lt.
  - exists 2. split; [now left|reflexivity].
Qed.

Lemma getParentDomain_short (d : jsstring) :
  length (labels d) <= 2 -> getParentDomain d = d.
Proof.
  intros H. unfold getParentDomain. fold (labels d).
  apply Nat.leb_le in H. now rewrite H.
Qed.

Lemma parent_covers (d : jsstring) : covers (getParentDomain d) d.
Proof.
  destruct (le_lt_dec (length (labels d)) 2) as [H|H].
  - left. symmetry. now apply getParentDomain_short.
  - right. destruct (getParentDomain_slice d H) as [n [Hn ->]].
    apply sliceLast_suffix. unfold labels in *. lia.
Qed.

(** X3.  The parent domain is never an unrelated domain: it is the domain
    itself, or the domain ends with a dot followed by the parent. *)
Theorem getParentDomain_covers (d : jsstring) : covers (getParentDomain d) d.
Proof. apply parent_covers. Qed.

(** X4.  The parent of a domain with more than two labels has two or
    three labels and fewer labels than the domain; so taking the parent
    settles after two steps at the latest, and not always after one. *)
Theorem getParentDomain_settles :
  (forall d,
      (2 < length (labels d) ->
       2 <= length (labels (getParentDomain d)) <= 3
       /\ length (labels (getParentDomain d)) < length (labels d))
      /\ getParentDomain (getParentDomain (getParentDomain d))
         = getParentDomain (getParentDomain d))
  /\ getParentDomain (getParentDomain (str "docs.example.co.uk"))
     <> getParentDomain (str "docs.example.co.uk").
Proof.
  assert (forall d, 2 < length (labels d) ->
                    2 <= length (labels (getParentDomain d)) <= 3
                    /\ length (labels (getParentDomain d))
                       < length (labels d)) as Hcount.
  { intros d H. destruct (getParentDomain_slice d H) as [n [Hn ->]].
    destruct (labels_sliceLast n d) as [-> ->]; lia. }
  pose proof getParentDomain_short as Hfix.
  split; [|vm_compute; discriminate].
  intros d. split; [apply Hcount|].
  destruct (le_lt_dec (length (labels d)) 2) as [H|H].
  - now rewrite !(Hfix d H).
  - destruct (Hcount d H) as [[H2 H3] _].
    destruct (le_lt_dec (length (labels (getParentDomain d))) 2) as [G|G].
    + now rewrite !(Hfix _ G).
    + destruct (Hcount _ G) as [_ Hlt]. apply Hfix. lia.
Qed.

Lemma getParentDomain_settles_witness :
  2 <= length (labels (getParentDomain (str "a.b.example.com"))) <= 3
  /\ length (labels (getParentDomain (str "a.b.example.com")))
     < length (labels (str "a.b.example.com")).
Proof.
  apply (proj1 (proj1 getParentDomain_settles (str "a.b.example.com"))).
  vm_compute. lia.
Defined.

End ParentSuffix.

(** ** Tags and the resolver together *)

Module TagResolver.

Import ResolverFacts TagFacts LikeFacts RetroFacts ParentSuffix.

(** X5.  Where a category comes from: the resolver answers [owned],
    [unknown], or the category of a stored tag whose domain is the domain
    asked about or a domain it is a subdomain of. *)
Theorem categorizeDomain_source
    (tags : list DomainTag) (d : jsstring) (L : list jsstring) :
  categorizeDomain tags d L = OWNED
  \/ categorizeDomain tags d L = UNKNOWN
  \/ exists t, In t tags /\ categorizeDomain tags d L = tag_category t
               /\ covers (tag_domain t) d.
Proof.
  unfold categorizeDomain.
  destruct (ownedLoop d L); [now left|].
  destruct (selectTag tags d) as [t|] eqn:E.
  - right. right. apply selectTag_In in E as [Hin Hd].
    exists t. repeat split; [assumption|]. left. now rewrite Hd.
  - destruct (negb (streq (getParentDomain d) d)); [|now right; left].
    destruct (selectTag tags (getParentDomain d)) as [t|] eqn:F;
      [|now right; left].
    right. right. apply selectTag_In in F as [Hin Hd].
    exists t. repeat split; [assumption|]. rewrite Hd. apply parent_covers.
Qed.

Lemma find_app {A} (p : A -> bool) (l l' : list A) :
  find p (l ++ l')
  = match find p l with Some x => Some x | None => find p l' end.
Proof.
  induction l as [|x l IH]; simpl; [reflexivity|].
  now destruct (p x).
Qed.

(** An upsert does not change what is read for another domain. *)
Lemma selectTag_upsertTag_other (d c d' : jsstring) (tags : list DomainTag) :
  d' <> d -> selectTag (upsertTag d c tags) d' = selectTag tags d'.
Proof.
  intros Hne. unfold upsertTag, selectTag, selectFirst.
  destruct (existsb _ tags).
  - induction tags as [|t tags IH]; simpl; [reflexivity|].
    destruct (streq (tag_domain t) d) eqn:E; simpl.
    + apply streq_eq in E. rewrite E.
      assert (streq d d' = false) as -> by (apply streq_neq; congruence).
      exact IH.
    + destruct (streq (tag_domain t) d'); [reflexivity|exact IH].
  - rewrite find_app. destruct (find _ tags); [reflexivity|].
    simpl. assert (streq d d' = false) as ->
        by (apply streq_neq; congruence).
    reflexivity.
Qed.

Lemma tags_after_post (st : Store) (domain category : jsstring) :
  blank (Some domain) = false ->
  blank (Some category) = false ->
  domain_tags (snd (postDomainTag st (Some domain) (Some category)))
  = upsertTag (cleanDomain domain) category (domain_tags st).
Proof.
  intros Hd Hc. now rewrite (postDomainTag_valid st _ _ Hd Hc).
Qed.

(** X6.  A stored tag is what later analyses read.  After a tag upsert
    that passes validation, a citation of the tagged domain, and a
    citation of an untagged domain whose parent domain is the tagged
    domain, are given the submitted category, unless the client owns the
    domain. *)
Theorem tag_then_categorize
    (st : Store) (domain category : jsstring) (L : list jsstring) :
  blank (Some domain) = false ->
  blank (Some category) = false ->
  let d := cleanDomain domain in
  let tags' :=
    domain_tags (snd (postDomainTag st (Some domain) (Some category))) in
  (~ ownedBy L d -> categorizeDomain tags' d L = category)
  /\ (forall s,
        ~ ownedBy L s -> s <> d -> getParentDomain s = d ->
        selectTag (domain_tags st) s = None ->
        categorizeDomain tags' s L = category).
Proof.
  intros Hd Hc d tags'. subst tags'.
  rewrite (tags_after_post st _ _ Hd Hc). fold d.
  destruct (selectTag_upsertTag d category (domain_tags st))
    as [t [Hsel [_ [Hcat _]]]].
  split.
  - intros Hno. unfold categorizeDomain.
    assert (ownedLoop d L = false) as ->
        by (destruct (ownedLoop d L) eqn:E; [|reflexivity];
            apply ownedLoop_ownedBy in E; contradiction).
    now rewrite Hsel.
  - intros s Hno Hne Hpar Hnone. unfold categorizeDomain.
    assert (ownedLoop s L = false) as ->
        by (destruct (ownedLoop s L) eqn:E; [|reflexivity];
            apply ownedLoop_ownedBy in E; contradiction).
    rewrite selectTag_upsertTag_other by exact Hne.
    rewrite Hnone, Hpar.
    assert (streq d s = false) as -> by (apply streq_neq; congruence).
    simpl. now rewrite Hsel.
Qed.

Lemma tag_then_categorize_witness :
  categorizeDomain
    (domain_tags (snd (postDomainTag seeded (Some (str "WWW.Example.com"))
                                     (Some (str "reference")))))
    (str "docs.example.com") []
  = str "reference".
Proof.
  apply (proj2 (tag_then_categorize seeded (str "WWW.Example.com")
                  (str "reference") [] eq_refl eq_refl)
           (str "docs.example.com")).
  - intros [o [[] _]].
  - discriminate.
  - reflexivity.
  - reflexivity.
Defined.

(** X7.  A tag reaches no further in later analyses: after a tag upsert
    that passes validation, every domain other than the tagged one whose
    parent domain is not the tagged one is categorized as before, deeper
    subdomains of the tagged domain included. *)
Theorem tag_leaves_other_domains
    (st : Store) (domain category : jsstring) (L : list jsstring)
    (s : jsstring) :
  blank (Some domain) = false ->
  blank (Some category) = false ->
  s <> cleanDomain domain ->
  getParentDomain s <> cleanDomain domain ->
  categorizeDomain
    (domain_tags (snd (postDomainTag st (Some domain) (Some category)))) s L
  = categorizeDomain (domain_tags st) s L.
Proof.
  intros Hd Hc Hs Hp. rewrite (tags_after_post st _ _ Hd Hc).
  unfold categorizeDomain.
  now rewrite !selectTag_upsertTag_other by assumption.
Qed.

Lemma tag_leaves_other_domains_witness :
  categorizeDomain
    (domain_tags (snd (postDomainTag seeded (Some (str "blog.example.com"))
                                     (Some (str "blog")))))
    (str "x.blog.example.com") []
  = categorizeDomain (domain_tags seeded) (str "x.blog.example.com") [].
Proof.
  apply (tag_leaves_other_domains seeded (str "blog.example.com")
           (str "blog") [] (str "x.blog.example.com") eq_refl eq_refl).
  - discriminate.
  - vm_compute. discriminate.
Defined.

End TagResolver.

(** ** Tag store: validation, invariants, counts *)

Module TagStore.

Import ResolverFacts TagFacts LikeFacts RetroFacts TagResolver.

(** X8.  A tag request is rejected exactly when the domain or the
    category is missing or blank, with status 400, and a rejected request
    leaves the store as it was. *)
Theorem postDomainTag_validation
    (st : Store) (domain category : option jsstring) :
  ((exists status message,
       fst (postDomainTag st domain category) = Error status message)
   <-> blank domain || blank category = true)
  /\ (blank domain || blank category = true ->
      postDomainTag st domain category
      = (Error 400 (str "Domain and category are required"), st)).
Proof.
  split; [|apply postDomainTag_invalid].
  split.
  - intros [status [message H]].
    destruct (blank domain || blank category) eqn:E; [reflexivity|].
    apply orb_false_iff in E as [Ed Ec].
    destruct domain as [dom|]; [|discriminate].
    destruct category as [cat|]; [|discriminate].
    rewrite (postDomainTag_valid st dom cat Ed Ec) in H. discriminate.
  - intros H. rewrite (postDomainTag_invalid st domain category H).
    now do 2 eexists.
Qed.

Lemma postDomainTag_validation_witness :
  postDomainTag seeded (Some (str "   ")) (Some (str "news"))
  = (Error 400 (str "Domain and category are required"), seeded).
Proof.
  apply (proj2 (postDomainTag_validation seeded (Some (str "   "))
                  (Some (str "news")))).
  reflexivity.
Defined.

Lemma domains_upsertTag (d c : jsstring) (tags : list DomainTag) :
  map tag_domain (upsertTag d c tags)
  = if existsb (fun t => streq (tag_domain t) d) tags
    then map tag_domain tags
    else map tag_domain tags ++ [d].
Proof.
  unfold upsertTag. destruct (existsb _ tags).
  - rewrite map_map. apply map_ext. intros t.
    now destruct (streq (tag_domain t) d).
  - now rewrite map_app.
Qed.

(** X9.  The tag table keeps one row per domain.  An upsert that passes
    validation keeps tag domains distinct and tag ids distinct; it adds
    one row when the cleaned domain had no tag and none otherwise. *)
Theorem upsert_keeps_domains_unique
    (st : Store) (domain category : jsstring) :
  blank (Some domain) = false ->
  blank (Some category) = false ->
  NoDup (map tag_domain (domain_tags st)) ->
  idsUnique (domain_tags st) ->
  let tags' :=
    domain_tags (snd (postDomainTag st (Some domain) (Some category))) in
  NoDup (map tag_domain tags')
  /\ idsUnique tags'
  /\ length tags'
     = match selectTag (domain_tags st) (cleanDomain domain) with
       | Some _ => length (domain_tags st)
       | None => S (length (domain_tags st))
       end.
Proof.
  intros Hd Hc Hdom Hids tags'. subst tags'.
  rewrite (tags_after_post st _ _ Hd Hc).
  set (d := cleanDomain domain). set (tags := domain_tags st) in *.
  split; [|split].
  - rewrite domains_upsertTag.
    destruct (existsb _ tags) eqn:E; [exact Hdom|].
    apply NoDup_app; [exact Hdom|repeat constructor; auto|].
    intros a Ha [Ea|[]]. apply in_map_iff in Ha as [t [Ht Hin]].
    assert (existsb (fun t => streq (tag_domain t) d) tags = true)
      by (apply existsb_exists; exists t; split;
          [assumption|apply streq_eq; congruence]).
    congruence.
  - now apply upsertTag_idsUnique.
  - unfold upsertTag, selectTag, selectFirst.
    destruct (existsb (fun t => streq (tag_domain t) d) tags) eqn:E.
    + apply existsb_exists in E as [t [Hin Ht]].
      destruct (find _ tags) eqn:F; [apply length_map|].
      rewrite (find_none _ _ F t Hin) in Ht. discriminate.
    + destruct (find _ tags) as [t|] eqn:F.
      * apply find_some in F as [Hin Ht].
        assert (existsb (fun t => streq (tag_domain t) d) tags = true)
          by (apply existsb_exists; now exists t).
        congruence.
      * rewrite length_app. simpl. lia.
Qed.

Lemma seeded_domains : NoDup (map tag_domain (domain_tags seeded)).
Proof. simpl. repeat constructor; simpl; intuition discriminate. Defined.

Lemma upsert_keeps_domains_unique_witness :
  NoDup (map tag_domain
           (domain_tags (snd (postDomainTag seeded
                                (Some (str "coindesk.com"))
                                (Some (str "aggregator")))))).
Proof.
  apply (upsert_keeps_domains_unique seeded (str "coindesk.com")
           (str "aggregator") eq_refl eq_refl seeded_domains
           (proj1 seeded_wf)).
Defined.

End TagStore.

(** ** Counting the retroactive updates *)

Module RetroCount.

Import ResolverFacts TagFacts LikeFacts RetroFacts TagResolver.










End RetroCount.

(** ** Deleting a tag *)

Module TagDelete.

Import ResolverFacts TagFacts TagResolver.

Lemma selectFirst_filter_out (tags : list DomainTag) (id : nat) :
  selectFirst (fun t => tag_id t =? id)
              (filter (fun t => negb (tag_id t =? id)) tags) = None.
Proof.
  apply selectFirst_id_None. intros t Hin.
  apply filter_In in Hin as [_ Hin]. apply negb_true_iff in Hin.
  now apply Nat.eqb_neq.
Qed.

(** X11.  What a successful delete leaves behind.  On a tag table with
    distinct ids and distinct domains, deleting a tag that is not a
    [system] tag answers success; afterwards no tag has that id, the
    domain has no tag, a second delete of the id answers 404 and changes
    nothing, every other tag is still stored, and the citations keep the
    categories they had (a retroactive recategorization is not undone). *)
Theorem delete_then_lookup (st : Store) (t : DomainTag) :
  idsUnique (domain_tags st) ->
  NoDup (map tag_domain (domain_tags st)) ->
  In t (domain_tags st) ->
  tag_source t <> SYSTEM ->
  let out := deleteDomainTag st (tag_id t) in
  fst out = Json tt
  /\ selectTag (domain_tags (snd out)) (tag_domain t) = None
  /\ deleteDomainTag (snd out) (tag_id t)
     = (Error 404 (str "Tag not found"), snd out)
  /\ (forall t', In t' (domain_tags st) -> t' <> t ->
                 In t' (domain_tags (snd out)))
  /\ citations (snd out) = citations st
  /\ runs (snd out) = runs st.
Proof.
  intros Hids Hdom Hin Hsrc out. subst out.
  assert (deleteDomainTag st (tag_id t)
          = (Json tt,
             withTags st (filter (fun x => negb (tag_id x =? tag_id t))
                                 (domain_tags st)))) as ->.
  { unfold deleteDomainTag.
    rewrite (selectFirst_key tag_id _ _ Hids Hin).
    apply streq_neq in Hsrc. now rewrite Hsrc. }
  cbn [fst snd].
  split; [reflexivity|]. split; [|split; [|split; [|split; reflexivity]]].
  - apply selectTag_None. cbn [domain_tags withTags].
    intros t' Hin' E. apply filter_In in Hin' as [Hin' Hid].
    apply negb_true_iff, Nat.eqb_neq in Hid. apply Hid.
    f_equal. clear Hid Hsrc Hids.
    induction (domain_tags st) as [|x tags IH]; [contradiction|].
    simpl in Hdom. inversion Hdom as [|? ? Hx Hdom']; subst.
    destruct Hin as [->|Hin], Hin' as [->|Hin']; try reflexivity.
    + exfalso. apply Hx. rewrite <- E. now apply in_map.
    + exfalso. apply Hx. rewrite E. now apply in_map.
    + now apply IH.
  - unfold deleteDomainTag. cbn [domain_tags withTags].
    now rewrite selectFirst_filter_out.
  - intros t' Hin' Hne. cbn [domain_tags withTags].
    apply filter_In. split; [exact Hin'|].
    apply negb_true_iff, Nat.eqb_neq. intros E. apply Hne.
    pose proof (selectFirst_key tag_id _ _ Hids Hin') as H1.
    pose proof (selectFirst_key tag_id _ _ Hids Hin) as H2.
    rewrite E in H1. congruence.
Qed.

Lemma delete_then_lookup_witness :
  fst (deleteDomainTag seeded 2) = Json tt
  /\ selectTag (domain_tags (snd (deleteDomainTag seeded 2)))
               (str "myblog.org") = None.
Proof.
  assert (In (mkTag 2 (str "myblog.org") (str "blog") USER)
             (domain_tags seeded)) as Hin by (right; now left).
  assert (tag_source (mkTag 2 (str "myblog.org") (str "blog") USER)
          <> SYSTEM) as Hsrc by discriminate.
  destruct (delete_then_lookup seeded _ (proj1 seeded_wf)
              TagStore.seeded_domains Hin Hsrc) as (H1 & H2 & _).
  split; [exact H1|exact H2].
Defined.

End TagDelete.

(** ** Analysis: responses, stored rows and invariants *)

Module AnalysisFacts.

Import TagFacts RecorderFacts RetroFacts.

Section Analysis.

Variable hostname : jsstring -> option jsstring.
Variable runInsertFails : Run -> bool.
Variable citationInsertFails : Citation -> bool.
Variable storageError : jsstring.
Variable fetch : nat -> jsstring -> upstream.

Local Abbreviation analyze' :=
  (analyze hostname runInsertFails citationInsertFails).
Local Abbreviation batchItem' :=
  (batchItem hostname runInsertFails citationInsertFails storageError fetch).
Local Abbreviation batchLoop' :=
  (batchLoop hostname runInsertFails citationInsertFails storageError fetch).
Local Abbreviation analyzeBatch' :=
  (analyzeBatch hostname runInsertFails citationInsertFails storageError fetch).
Local Abbreviation recordRun' := (recordRun runInsertFails citationInsertFails).

(** The rows a successful loop of inserts appends, item by item. *)
Lemma insertCitations_stored runId items table table' :
  insertCitations citationInsertFails runId items table = Some table' ->
  exists rows,
    table' = table ++ rows /\ Forall2 (stored runId) items rows.
Proof.
  revert table. induction items as [|c items IH]; intros table H; simpl in H.
  - injection H as <-. exists []. rewrite app_nil_r. split; constructor.
  - destruct (citationInsertFails _) eqn:F; [discriminate|].
    apply IH in H as [rows [-> Hall]].
    eexists (_ :: rows). rewrite <- app_assoc. split; [reflexivity|].
    constructor; [|exact Hall]. repeat split.
Qed.

(** The ids of inserted rows are new and distinct. *)
Lemma insertCitations_keyed runId items table table' :
  NoDup (map cit_id table) ->
  insertCitations citationInsertFails runId items table = Some table' ->
  NoDup (map cit_id table').
Proof.
  revert table. induction items as [|c items IH]; intros table Hnd H;
    simpl in H.
  - now injection H as <-.
  - destruct (citationInsertFails _) eqn:F; [discriminate|].
    apply IH in H; [exact H|].
    rewrite map_app. simpl.
    apply NoDup_app; [exact Hnd|repeat constructor; auto|].
    intros a Ha [<-|[]]. now apply nextId_fresh in Ha.
Qed.

(** The recorder in full: what it returns and what it stores. *)
Lemma recordRun_stored st queryId data text model cost count owned items :
  let run := newRun st queryId data text model cost count owned in
  let out := recordRun' st queryId data text model cost count owned items in
  (fst out = None /\ (snd out = st \/ snd out = plus st run []))
  \/ (exists rows,
         out = (Some (run_id run), plus st run rows)
         /\ Forall2 (stored (run_id run)) items rows
         /\ (NoDup (map cit_id (citations st)) ->
             NoDup (map cit_id (citations st ++ rows)))).
Proof.
  intros run out. subst out. unfold recordRun. cbv zeta.
  fold (newRun st queryId data text model cost count owned). fold run.
  destruct (runInsertFails run); [left; split; [reflexivity|now left]|].
  unfold transaction. cbn [citations withRuns].
  destruct (insertCitations _ _ items (citations st)) as [table'|] eqn:I;
    cbn [option_map fst snd].
  - right. pose proof I as K.
    apply insertCitations_stored in I as [rows [-> Hall]].
    exists rows. split; [reflexivity|]. split; [exact Hall|].
    intros Hnd. exact (insertCitations_keyed _ _ _ _ Hnd K).
  - left. split; [reflexivity|]. right.
    unfold plus, withRuns. now rewrite app_nil_r.
Qed.

Lemma orderByPosition_seq (rows : list Citation) :
  forall k, map cit_position rows = seq k (length rows) ->
            orderByPosition rows = rows.
Proof.
  induction rows as [|r rows IH]; intros k H; [reflexivity|].
  simpl in H. injection H as Hr Hrest.
  unfold orderByPosition in *. simpl. rewrite (IH (S k) Hrest).
  destruct rows as [|x rows]; [reflexivity|].
  simpl in Hrest. injection Hrest as Hx _.
  simpl. assert ((cit_position r <=? cit_position x) = true) as ->
      by (apply Nat.leb_le; lia).
  reflexivity.
Qed.

Lemma stored_positions runId items rows :
  Forall2 (stored runId) items rows ->
  map cit_position rows = map c_position items
  /\ length rows = length items
  /\ length (filter (fun c => streq (cit_category c) OWNED) rows)
     = length (filter (fun c => streq (c_category c) OWNED) items)
  /\ forall other,
       filter (fun c => cit_run_id c =? other) rows
       = if runId =? other then rows else [].
Proof.
  induction 1 as [|item row items rows Hs Hall IH].
  - repeat split. intros other. now destruct (runId =? other).
  - destruct Hs as (Hr & _ & _ & Hp & Hc).
    destruct IH as (IH1 & IH2 & IH3 & IH4).
    simpl. rewrite Hp, Hc, IH1, IH2. split; [reflexivity|].
    split; [reflexivity|]. split.
    + destruct (streq (c_category item) OWNED); simpl; now rewrite IH3.
    + intros other. rewrite Hr, IH4. now destruct (runId =? other).
Qed.

(** No stored citation belongs to a run id that is not in use. *)
Lemma no_citations_of_fresh (st : Store) :
  citationsOwned st ->
  filter (fun c => cit_run_id c =? nextId (map run_id (runs st)))
         (citations st) = [].
Proof.
  intros Hown.
  assert (forall c, In c (citations st) ->
                    (cit_run_id c =? nextId (map run_id (runs st))) = false)
    as Hno.
  { intros c Hin. apply Nat.eqb_neq. intros E.
    destruct (Hown c Hin) as [r [Hr Hid]].
    apply (nextId_fresh (map run_id (runs st))).
    rewrite <- E, <- Hid. now apply in_map. }
  induction (citations st) as [|c cs IH]; [reflexivity|].
  simpl. rewrite Hno by now left. apply IH. intros; apply Hno; now right.
Qed.

(** The shape of a successful answer that carries a run id. *)
Lemma analyze_stored (st : Store) (req : AnalyzeRequest) (up : upstream)
    (body : AnalyzeResult) (st' : Store) (id : nat) :
  analyze' st req up = (Json body, st') ->
  out_runId body = Some id ->
  id = nextId (map run_id (runs st))
  /\ map c_position (out_citations body)
     = seq 1 (length (out_citations body))
  /\ exists run rows,
       st' = plus st run rows /\ run_id run = id
       /\ run_owned_citation_count run
          = length (filter (fun c => streq (c_category c) OWNED)
                           (out_citations body))
       /\ Forall2 (stored id) (out_citations body) rows.
Proof.
  unfold analyze. intros H Hid.
  destruct (falsy (req_query req)); [discriminate|].
  destruct (falsy (req_apiKey req)); [discriminate|].
  destruct up as [data|status text|message]; try discriminate.
  destruct (truthyId (req_queryId req)) as [queryId|] eqn:Q.
  - match type of H with
    | context [recordRun _ _ _ _ ?d ?t ?m ?c ?n ?o ?items] =>
        destruct (recordRun_stored st queryId d t m c n o items)
          as [[Hnone _]|[rows [E [Hall _]]]]
    end.
    + destruct (recordRun _ _ _ _ _ _ _ _ _ _ _) as [[runId|] st1];
        discriminate.
    + rewrite E in H. injection H as <- <-.
      cbn [out_citations out_runId newRun run_id] in *.
      injection Hid as <-.
      rewrite categorize_length, categorize_positions.
      do 2 (split; [reflexivity|]).
      do 2 eexists. split; [reflexivity|].
      cbn [run_id run_owned_citation_count].
      repeat split; try reflexivity. exact Hall.
  - injection H as <- <-. discriminate.
Qed.

(** X13.  Reading back what an analysis stored.  On a store where every
    citation belongs to a stored run, after a successful answer with a
    run id the citation listing of that run gives the citations of the
    answer, in the order of the answer, with their url, domain, position
    and category; the owned count kept on the run row is the number of
    listed citations with category [owned]; and the listing of every
    other run is as before. *)
Theorem listing_after_analyze
    (st : Store) (req : AnalyzeRequest) (up : upstream)
    (body : AnalyzeResult) (st' : Store) (id : nat) :
  citationsOwned st ->
  analyze' st req up = (Json body, st') ->
  out_runId body = Some id ->
  Forall2 (stored id) (out_citations body) (getRunCitations st' id)
  /\ (exists run,
         In run (runs st') /\ run_id run = id
         /\ run_owned_citation_count run
            = length (filter (fun c => streq (cit_category c) OWNED)
                             (getRunCitations st' id)))
  /\ (forall other, other <> id ->
                    getRunCitations st' other = getRunCitations st other).
Proof.
  intros Hown H Hid.
  destruct (analyze_stored st req up body st' id H Hid)
    as (Hfresh & Hpos & run & rows & -> & Hrun & Howned & Hall).
  destruct (stored_positions id _ _ Hall) as (Hp & Hlen & Hcount & Hfilter).
  assert (getRunCitations (plus st run rows) id = rows) as Hlist.
  { unfold getRunCitations, plus. cbn [citations].
    rewrite filter_app, Hfilter, Nat.eqb_refl.
    rewrite Hfresh. rewrite (no_citations_of_fresh st Hown).
    simpl. apply (orderByPosition_seq rows 1).
    now rewrite Hp, Hpos, Hlen. }
  rewrite Hlist. split; [exact Hall|]. split.
  - exists run. split; [|split; [exact Hrun|]].
    + unfold plus. cbn [runs]. apply in_or_app. right. now left.
    + now rewrite Hcount.
  - intros other Hne. unfold getRunCitations, plus. cbn [citations].
    rewrite filter_app, Hfilter.
    assert ((id =? other) = false) as -> by (apply Nat.eqb_neq; congruence).
    now rewrite app_nil_r.
Qed.

Lemma stored_run_ids runId items rows :
  Forall2 (stored runId) items rows ->
  forall c, In c rows -> cit_run_id c = runId.
Proof.
  induction 1 as [|item row items rows Hs Hall IH]; intros c; [intros []|].
  intros [<-|Hin]; [apply Hs|now apply IH].
Qed.

Lemma plus_consistent (st : Store) (run : Run) (rows : list Citation) :
  consistent st ->
  run_id run = nextId (map run_id (runs st)) ->
  NoDup (map cit_id (citations st ++ rows)) ->
  (forall c, In c rows -> cit_run_id c = run_id run) ->
  consistent (plus st run rows).
Proof.
  intros (Hruns & Hcits & Hown) Hid Hnd Hrows.
  unfold consistent, runsKeyed, citationsKeyed, citationsOwned, plus.
  cbn [runs citations]. split; [|split].
  - rewrite map_app. simpl.
    apply NoDup_app; [exact Hruns|repeat constructor; auto|].
    intros a Ha [<-|[]]. rewrite Hid in Ha. now apply nextId_fresh in Ha.
  - exact Hnd.
  - intros c Hin. apply in_app_or in Hin as [Hin|Hin].
    + destruct (Hown c Hin) as [r [Hr E]]. exists r.
      split; [apply in_or_app; now left|exact E].
    + exists run. split; [apply in_or_app; right; now left|].
      symmetry. now apply Hrows.
Qed.

Lemma recordRun_consistent st queryId data text model cost count owned items :
  consistent st ->
  consistent
    (snd (recordRun' st queryId data text model cost count owned items)).
Proof.
  intros Hc.
  destruct (recordRun_stored st queryId data text model cost count owned items)
    as [[_ [->| ->]]|[rows [-> [Hall Hnd]]]]; cbn [snd].
  - exact Hc.
  - apply plus_consistent; [exact Hc|reflexivity| |intros c []].
    rewrite app_nil_r. apply Hc.
  - apply plus_consistent; [exact Hc|reflexivity| |].
    + apply Hnd, Hc.
    + exact (stored_run_ids _ _ _ Hall).
Qed.

Lemma batchItem_consistent model i queryId st :
  consistent st -> consistent (snd (batchItem' model i queryId st)).
Proof.
  intros Hc. unfold batchItem.
  destruct (selectFirst _ (queries st)) as [q|]; [|exact Hc].
  destruct (fetch i (query_text q)) as [data|status text|message];
    try exact Hc.
  match goal with
  | |- context [recordRun _ _ _ ?q ?d ?t ?m ?c ?n ?o ?items] =>
      pose proof (recordRun_consistent st q d t m c n o items Hc) as H
  end.
  destruct (recordRun _ _ _ _ _ _ _ _ _ _ _) as [[runId|] st']; exact H.
Qed.

Lemma batchLoop_consistent model ids :
  forall k st, consistent st -> consistent (snd (batchLoop' model k ids st)).
Proof.
  induction ids as [|id ids IH]; intros k st Hc; simpl; [exact Hc|].
  pose proof (batchItem_consistent model k id st Hc) as H1.
  destruct (batchItem' model k id st) as [e st1].
  pose proof (IH (S k) st1 H1) as H2.
  destruct (batchLoop' model (S k) ids st1) as [es st2]. exact H2.
Qed.

(** X14.  The handlers that write keep the store consistent: run ids
    stay distinct, citation ids stay distinct, and every citation still
    belongs to a stored run, after the single analysis, after a batch,
    after a tag upsert and after a tag delete, whatever the upstream
    answers and whatever the store refuses. *)
Theorem handlers_keep_consistency (st : Store) :
  consistent st ->
  (forall req up, consistent (snd (analyze' st req up)))
  /\ (forall ids key model,
         consistent (snd (analyzeBatch' st ids key model)))
  /\ (forall domain category,
         consistent (snd (postDomainTag st domain category)))
  /\ (forall id, consistent (snd (deleteDomainTag st id))).
Proof.
  intros Hc. split; [|split; [|split]].
  - intros req up. unfold analyze.
    destruct (falsy (req_query req)); [exact Hc|].
    destruct (falsy (req_apiKey req)); [exact Hc|].
    destruct up as [data|status text|message]; try exact Hc.
    destruct (truthyId (req_queryId req)) as [queryId|]; [|exact Hc].
    match goal with
    | |- context [recordRun _ _ _ ?q ?d ?t ?m ?c ?n ?o ?items] =>
        pose proof (recordRun_consistent st q d t m c n o items Hc) as H
    end.
    destruct (recordRun _ _ _ _ _ _ _ _ _ _ _) as [[runId|] st']; exact H.
  - intros ids key model. unfold analyzeBatch.
    destruct ids as [[|id ids]|]; try exact Hc.
    destruct (falsy key); [exact Hc|].
    pose proof (batchLoop_consistent (modelOf model) (id :: ids) 0 st Hc) as H.
    destruct (batchLoop' (modelOf model) 0 (id :: ids) st) as [results st'].
    exact H.
  - intros domain category.
    destruct (blank domain || blank category) eqn:B.
    + now rewrite (postDomainTag_invalid st domain category B).
    + apply orb_false_iff in B as [Bd Bc].
      destruct domain as [dom|]; [|discriminate].
      destruct category as [cat|]; [|discriminate].
      rewrite (postDomainTag_valid st dom cat Bd Bc). cbn [snd].
      destruct Hc as (Hruns & Hcits & Hown).
      rewrite retroactive_map.
      assert (forall c, cit_id (recategorize cat (cleanDomain dom) c)
                        = cit_id c
                        /\ cit_run_id (recategorize cat (cleanDomain dom) c)
                           = cit_run_id c) as Hsame.
      { intros c. unfold recategorize.
        now destruct (reached (cleanDomain dom) c). }
      unfold consistent, runsKeyed, citationsKeyed, citationsOwned.
      cbn [runs citations]. split; [exact Hruns|]. split.
      * rewrite map_map. erewrite map_ext; [exact Hcits|].
        intros c. apply Hsame.
      * intros c Hin. apply in_map_iff in Hin as [c0 [<- Hin]].
        destruct (Hown c0 Hin) as [r [Hr E]]. exists r.
        split; [exact Hr|]. rewrite E. symmetry. apply Hsame.
  - intros id. unfold deleteDomainTag.
    destruct (selectFirst _ (domain_tags st)) as [tag|]; [|exact Hc].
    destruct (streq (tag_source tag) SYSTEM); exact Hc.
Qed.





(** X23.  The two analysis paths agree.  For a stored query with a
    non-empty text, the batch item for its id leaves the store exactly as
    the single handler does when it is given that id, that text, an API
    key and the same model, and both report the same run id, whatever the
    upstream answers. *)
Theorem batch_item_as_single
    (st : Store) (model : jsstring) (i n : nat) (q : Query)
    (key : option jsstring) :
  selectFirst (fun x => query_id x =? S n) (queries st) = Some q ->
  query_text q <> [] ->
  falsy key = false ->
  let single :=
    analyze' st (mkAnalyzeRequest (Some (S n)) (Some (query_text q)) key
                                  (Some model))
             (fetch i (query_text q)) in
  let item := batchItem' model i (S n) st in
  snd item = snd single
  /\ entryRunId (fst item) = responseRunId (fst single).
Proof.
  intros Hsel Htext Hkey single item. subst single item.
  unfold batchItem, analyze. rewrite Hsel.
  cbn [req_query req_apiKey req_model req_queryId modelOf truthyId].
  assert (falsy (Some (query_text q)) = false) as ->
      by (destruct (query_text q); [contradiction|reflexivity]).
  rewrite Hkey.
  destruct (fetch i (query_text q)) as [data|status text|message];
    try (split; reflexivity).
  destruct (recordRun _ _ _ _ _ _ _ _ _ _ _) as [[runId|] st'];
    split; reflexivity.
Qed.

(** X24.  What the single handler refuses, and what it never stores.  A
    missing or empty query, then a missing or empty API key, are answered
    400; an upstream refusal is answered with the upstream status; an
    upstream exception is answered 500; in all these cases the store is
    unchanged.  And without a query id, the id 0 included, the handler
    stores nothing whatever the upstream answers. *)
Theorem analyze_refusals
    (st : Store) (req : AnalyzeRequest) (up : upstream) :
  (falsy (req_query req) = true ->
   exists message, analyze' st req up = (Error 400 message, st))
  /\ (falsy (req_apiKey req) = true ->
      exists message, analyze' st req up = (Error 400 message, st))
  /\ (falsy (req_query req) = false -> falsy (req_apiKey req) = false ->
      (forall status text,
          up = Refused status text ->
          exists message, analyze' st req up = (Error status message, st))
      /\ (forall text,
             up = Failed text ->
             exists message, analyze' st req up = (Error 500 message, st)))
  /\ (req_queryId req = None \/ req_queryId req = Some 0 ->
      snd (analyze' st req up) = st
      /\ responseRunId (fst (analyze' st req up)) = None).
Proof.
  unfold analyze. split; [|split; [|split]].
  - intros ->. now eexists.
  - intros ->. destruct (falsy (req_query req)); now eexists.
  - intros -> ->.
    split; [intros status text ->|intros text ->]; now eexists.
  - intros Hid.
    assert (truthyId (req_queryId req) = None) as ->
        by (destruct Hid as [-> | ->]; reflexivity).
    destruct (falsy (req_query req)); [now split|].
    destruct (falsy (req_apiKey req)); [now split|].
    destruct up; now split.
Qed.

(** X12.  What a successful answer of the single handler says.  The
    citation count is the number of citations listed, their positions are
    1, 2, ..., the owned count is the number of listed citations with
    category [owned], and the cost is the estimate for one query of the
    model.  Without a run id nothing was stored.  With a run id, the id
    is new, and the store holds one more run, of the query asked for,
    with those two counts, and one citation row per listed citation, in
    order, with the same url, domain, position and category. *)
Theorem analyze_response
    (st : Store) (req : AnalyzeRequest) (up : upstream)
    (body : AnalyzeResult) (st' : Store) :
  analyze' st req up = (Json body, st') ->
  let items := out_citations body in
  out_citationCount body = length items
  /\ map c_position items = seq 1 (length items)
  /\ out_ownedCitationCount body
     = length (filter (fun c => streq (c_category c) OWNED) items)
  /\ out_costEstimate body = estimateCost (out_model body) 1
  /\ match out_runId body with
     | None => st' = st
     | Some id =>
         ~ In id (map run_id (runs st))
         /\ exists run rows,
              st' = plus st run rows /\ run_id run = id
              /\ truthyId (req_queryId req) = Some (run_query_id run)
              /\ run_citation_count run = out_citationCount body
              /\ run_owned_citation_count run = out_ownedCitationCount body
              /\ Forall2 (stored id) items rows
     end.
Proof.
  unfold analyze. intros H.
  destruct (falsy (req_query req)); [discriminate|].
  destruct (falsy (req_apiKey req)); [discriminate|].
  destruct up as [data|status text|message]; try discriminate.
  destruct (truthyId (req_queryId req)) as [queryId|] eqn:Q.
  - match type of H with
    | context [recordRun _ _ _ _ ?d ?t ?m ?c ?n ?o ?items] =>
        destruct (recordRun_stored st queryId d t m c n o items)
          as [[Hnone _]|[rows [E [Hall _]]]]
    end.
    + destruct (recordRun _ _ _ _ _ _ _ _ _ _ _) as [[runId|] st1];
        discriminate.
    + rewrite E in H. injection H as <- <-.
      cbn [out_citations out_citationCount out_ownedCitationCount
           out_costEstimate out_model out_runId newRun run_id].
      rewrite categorize_length, categorize_positions.
      do 4 (split; [reflexivity|]).
      split; [apply nextId_fresh|].
      do 2 eexists. split; [reflexivity|]. cbn [run_id run_query_id
        run_citation_count run_owned_citation_count].
      repeat split; try reflexivity. exact Hall.
  - injection H as <- <-.
    cbn [out_citations out_citationCount out_ownedCitationCount
         out_costEstimate out_model out_runId].
    rewrite categorize_length, categorize_positions.
    repeat split; reflexivity.
Qed.

End Analysis.

Lemma analyze_response_witness :
  exists body st',
    analyze simpleHostname accept accept acme request (Responded answer)
    = (Json body, st')
    /\ out_citationCount body = length (out_citations body)
    /\ out_runId body = Some 1.
Proof.
  exists (mkAnalyzeResult (Some 1) (str "An answer.")
            (categorize simpleHostname (domain_tags acme) [str "owned.com"]
                        [str "https://www.coindesk.com/a";
                         str "https://sub.owned.com/x"])
            2 1 (str "sonar") (estimateCost (str "sonar") 1)).
  eexists.
  assert (analyze simpleHostname accept accept acme request (Responded answer)
          = (Json (mkAnalyzeResult (Some 1) (str "An answer.")
                     (categorize simpleHostname (domain_tags acme)
                                 [str "owned.com"]
                                 [str "https://www.coindesk.com/a";
                                  str "https://sub.owned.com/x"])
                     2 1 (str "sonar") (estimateCost (str "sonar") 1)),
             snd (analyze simpleHostname accept accept acme request
                          (Responded answer)))) as E by reflexivity.
  split; [exact E|].
  split; [|reflexivity].
  exact (proj1 (analyze_response simpleHostname accept accept acme request
                  (Responded answer) _ _ E)).
Defined.

Lemma acme_citationsOwned : citationsOwned acme.
Proof. intros c []. Defined.

Lemma batch_item_as_single_witness :
  snd (batchItem simpleHostname accept accept (str "storage") fetchAnswer
                 (str "sonar") 0 1 acme)
  = snd (analyze simpleHostname accept accept acme request
                 (fetchAnswer 0 (str "best exchange"))).
Proof.
  exact (proj1 (batch_item_as_single simpleHostname accept accept
                  (str "storage") fetchAnswer acme (str "sonar") 0 0
                  (mkQuery 1 1 (str "best exchange")) (Some (str "key"))
                  eq_refl ltac:(discriminate) eq_refl)).
Defined.

Lemma analyze_refusals_witness :
  exists message,
    analyze simpleHostname accept accept acme
            (mkAnalyzeRequest (Some 1) (Some []) (Some (str "key")) None)
            (Responded answer)
    = (Error 400 message, acme).
Proof.
  exact (proj1 (analyze_refusals simpleHostname accept accept acme
                  (mkAnalyzeRequest (Some 1) (Some []) (Some (str "key"))
                                    None)
                  (Responded answer)) eq_refl).
Defined.

Lemma acme_consistent : consistent acme.
Proof.
  split; [constructor|split; [constructor|exact acme_citationsOwned]].
Defined.

Lemma handlers_keep_consistency_witness :
  consistent (snd (analyze simpleHostname accept refuseSecond acme request
                           (Responded answer))).
Proof.
  exact (proj1 (handlers_keep_consistency simpleHostname accept refuseSecond
                  (str "storage") fetchAnswer acme acme_consistent)
           request (Responded answer)).
Defined.


Lemma listing_after_analyze_witness :
  Forall2 (stored 1)
    (categorize simpleHostname (domain_tags acme) [str "owned.com"]
                [str "https://www.coindesk.com/a";
                 str "https://sub.owned.com/x"])
    (getRunCitations
       (snd (analyze simpleHostname accept accept acme request
                     (Responded answer))) 1).
Proof.
  assert (analyze simpleHostname accept accept acme request (Responded answer)
          = (Json (mkAnalyzeResult (Some 1) (str "An answer.")
                     (categorize simpleHostname (domain_tags acme)
                                 [str "owned.com"]
                                 [str "https://www.coindesk.com/a";
                                  str "https://sub.owned.com/x"])
                     2 1 (str "sonar") (estimateCost (str "sonar") 1)),
             snd (analyze simpleHostname accept accept acme request
                          (Responded answer)))) as E by reflexivity.
  exact (proj1 (listing_after_analyze simpleHostname accept accept acme
                  request (Responded answer) _ _ 1 acme_citationsOwned E
                  eq_refl)).
Defined.

End AnalysisFacts.

(** ** Cost estimates for whole numbers of queries *)

Module CostExact.

Import CostFacts.

Local Open Scope Q_scope.







End CostExact.

(** ** The client library *)

Module ClientFacts.

Import CamelFacts.

Lemma getPropertyUI_getProperty (key : jsstring) :
  getPropertyUI key = getProperty key.
Proof.
  unfold getPropertyUI, getProperty, MODEL_PRICING_UI, MODEL_PRICING.
  cbn [ownRow ownProperty].
  repeat match goal with
         | |- context [if streq ?a ?b then _ else _] =>
             destruct (streq a b)
         end; reflexivity.
Qed.

(** X17.  The estimate of the client is the estimate of the server, for
    every model name and every count: the two pricing tables hold the
    same prices, and both fall back in the same way. *)
Theorem estimateCostClient_agrees (model : jsstring) (queryCount : Q) :
  estimateCostClient model queryCount = estimateCost model queryCount.
Proof.
  unfold estimateCostClient, estimateCost.
  now rewrite getPropertyUI_getProperty.
Qed.

Lemma lowerChar_idempotent (c : ascii) : lowerChar (lowerChar c) = lowerChar c.
Proof. destruct c as [[] [] [] [] [] [] [] []]; reflexivity. Qed.

Lemma toLowerCase_idempotent (s : jsstring) :
  toLowerCase (toLowerCase s) = toLowerCase s.
Proof.
  unfold toLowerCase. rewrite map_map. apply map_ext.
  apply lowerChar_idempotent.
Qed.

(** X18.  A category hint is never [owned] and never [unknown]: when the
    suggestion is not [null] it is one of the values offered by the tag
    form, [CATEGORY_OPTIONS]; and [aggregator] and [unknown], though
    offered, are never suggested. *)
Theorem suggestCategory_range (domain url : jsstring) (c : jsstring) :
  suggestCategory domain url = Some c ->
  In c CATEGORY_OPTIONS /\ c <> OWNED /\ c <> UNKNOWN
  /\ c <> str "aggregator".
Proof.
  unfold suggestCategory.
  repeat match goal with
         | |- context [if ?b then _ else _] => destruct b
         end; intros H; inversion H; subst;
    (split; [vm_compute; tauto|repeat split; discriminate]).
Qed.

Lemma suggestCategory_range_witness :
  In (str "reference") CATEGORY_OPTIONS.
Proof.
  exact (proj1 (suggestCategory_range (str "en.wikipedia.org")
                  (str "https://en.wikipedia.org/wiki/Rocq")
                  (str "reference") eq_refl)).
Defined.

(** X19.  A category hint does not depend on the case of the letters of
    the domain and of the url. *)
Theorem suggestCategory_ignores_case (domain url : jsstring) :
  suggestCategory (toLowerCase domain) (toLowerCase url)
  = suggestCategory domain url.
Proof.
  unfold suggestCategory. now rewrite !toLowerCase_idempotent.
Qed.

End ClientFacts.

(** ** Clients and queries *)

Module CrudFacts.

Import TagFacts.







Section Queries.

Variable queryInsertFails : Query -> bool.

Local Abbreviation insertQueries' := (insertQueries queryInsertFails).
Local Abbreviation postQueries' := (postQueries queryInsertFails).

Lemma keptTexts_cons (text : jsstring) (rest : list jsstring) :
  keptTexts (text :: rest)
  = match trim text with
    | [] => keptTexts rest
    | _ :: _ => trim text :: keptTexts rest
    end.
Proof. unfold keptTexts. simpl. now destruct (trim text). Qed.

(** The rows a successful run of [insertMany] appends. *)
Lemma insertQueries_Some clientId items :
  forall table results out,
    insertQueries' clientId items table results = Some out ->
    exists created,
      out = (table ++ created, results ++ map query_id created)
      /\ map query_text created = keptTexts items
      /\ Forall (fun q => query_client_id q = clientId) created
      /\ (forall q x, In q created -> In x table ->
                      query_id x < query_id q)
      /\ NoDup (map query_id created).
Proof.
  induction items as [|text items IH]; intros table results out H.
  - simpl in H. injection H as <-. exists [].
    rewrite !app_nil_r. repeat split; try constructor. intros q x [].
  - simpl in H. rewrite keptTexts_cons.
    destruct (trim text) as [|ch t] eqn:T.
    + now apply IH.
    + destruct (queryInsertFails _) eqn:F; [discriminate|].
      apply IH in H as (created & -> & Htexts & Hcl & Hlt & Hnd).
      set (row := mkQuery (nextId (map query_id table)) clientId (ch :: t))
        in *.
      exists (row :: created). rewrite <- !app_assoc. simpl.
      split; [reflexivity|]. split; [now rewrite Htexts|].
      split; [now constructor|]. split.
      * intros q x [<-|Hq] Hx.
        -- unfold row. cbn [query_id]. unfold nextId.
           pose proof (fold_max_ge (map query_id table) (query_id x)
                         (in_map _ _ _ Hx)). lia.
        -- apply Hlt; [exact Hq|]. apply in_or_app. now left.
      * constructor; [|exact Hnd].
        intros Hin. apply in_map_iff in Hin as [q [E Hq]].
        assert (query_id row < query_id q) as Hlt'
            by (apply Hlt; [exact Hq|apply in_or_app; right; now left]).
        subst row. cbn [query_id] in *. lia.
Qed.

Lemma insertQueries_None clientId items :
  forall table results,
    insertQueries' clientId items table results = None ->
    exists row, query_client_id row = clientId
                /\ queryInsertFails row = true.
Proof.
  induction items as [|text items IH]; intros table results H;
    simpl in H; [discriminate|].
  destruct (trim text) as [|ch t]; [now apply IH in H|].
  destruct (queryInsertFails _) eqn:F; [|now apply IH in H].
  eexists. split; [|exact F]. reflexivity.
Qed.

(** Reading the created rows back by their ids gives those rows. *)
Lemma created_read_back (table created : list Query) :
  (forall q x, In q created -> In x table -> query_id x < query_id q) ->
  filter (fun q => existsb (Nat.eqb (query_id q)) (map query_id created))
         (table ++ created)
  = created.
Proof.
  intros Hlt. rewrite filter_app.
  assert (filter (fun q => existsb (Nat.eqb (query_id q))
                                   (map query_id created)) table = []) as ->.
  { induction table as [|x table IH]; [reflexivity|]. simpl.
    destruct (existsb _ (map query_id created)) eqn:E.
    - apply existsb_exists in E as [i [Hi E]]. apply Nat.eqb_eq in E.
      apply in_map_iff in Hi as [q [Hq Hin]].
      assert (query_id x < query_id q) by (apply Hlt; [exact Hin|now left]).
      lia.
    - apply IH. intros q y Hq Hy. apply Hlt; [exact Hq|now right]. }
  simpl.
  assert (forall l, incl l created ->
            filter (fun q => existsb (Nat.eqb (query_id q))
                                     (map query_id created)) l = l) as Hall.
  { induction l as [|q l IH]; intros Hincl; [reflexivity|]. simpl.
    assert (existsb (Nat.eqb (query_id q)) (map query_id created) = true)
      as ->.
    { apply existsb_exists. exists (query_id q).
      split; [apply in_map, Hincl; now left|apply Nat.eqb_refl]. }
    f_equal. apply IH. intros y Hy. apply Hincl. now right. }
  apply Hall, incl_refl.
Qed.

(** X22.  Adding queries is all or nothing, and blank lines are dropped.
    For a non-empty submission the answer is one of three.  Either the
    store refused an insert: the answer is 500 and the query table is as
    before, earlier inserts of the submission undone.  Or every text is
    blank: the answer is 400 and nothing changes.  Or the answer is the
    list of created queries: one per non-blank text, in the order of the
    submission, with the text trimmed and the client id of the route;
    they are appended to the query table, and the ids of the table stay
    distinct. *)
Theorem postQueries_outcomes
    (st : Store) (clientId : nat) (texts : list jsstring) :
  texts <> [] ->
  NoDup (map query_id (queries st)) ->
  let out := postQueries' st clientId (Some texts) in
  ((exists message, fst out = Rejected 500 message) /\ snd out = st
   /\ exists row, query_client_id row = clientId
                  /\ queryInsertFails row = true)
  \/ (fst out
       = Rejected 400 (str "No valid queries provided (all were empty)")
      /\ snd out = st /\ keptTexts texts = [])
  \/ (exists created,
         fst out = Sent 201 created /\ created <> []
         /\ snd out = withQueries st (queries st ++ created)
         /\ map query_text created = keptTexts texts
         /\ Forall (fun q => query_client_id q = clientId) created
         /\ NoDup (map query_id (queries st ++ created))).
Proof.
  intros Hne Hnd out. subst out. unfold postQueries.
  destruct texts as [|text texts]; [contradiction|].
  destruct (insertQueries' clientId (text :: texts) (queries st) [])
    as [[table ids]|] eqn:I.
  - apply insertQueries_Some in I
      as (created & E & Htexts & Hcl & Hlt & Hnd').
    injection E as -> ->. simpl app.
    destruct created as [|q created].
    + right. left. simpl. rewrite app_nil_r.
      split; [reflexivity|]. split; [now destruct st|].
      now rewrite <- Htexts.
    + right. right. exists (q :: created). cbn [map fst snd].
      split.
      * f_equal. cbn [queries withQueries].
        now apply (created_read_back (queries st) (q :: created)).
      * split; [discriminate|]. split; [reflexivity|].
        split; [exact Htexts|]. split; [exact Hcl|].
        rewrite map_app. apply NoDup_app; [exact Hnd|exact Hnd'|].
        intros a Ha Hb. apply in_map_iff in Ha as [x [<- Hx]].
        apply in_map_iff in Hb as [y [E Hy]].
        pose proof (Hlt y x Hy Hx). lia.
  - left. apply insertQueries_None in I.
    split; [now eexists|]. split; [reflexivity|exact I].
Qed.

End Queries.

Lemma postQueries_outcomes_witness :
  exists created,
    fst (postQueries accept acme 1
           (Some [str "  what is staking "; str "   "; str "defi"]))
    = Sent 201 created
    /\ map query_text created = [str "what is staking"; str "defi"].
Proof.
  assert ([str "  what is staking "; str "   "; str "defi"] <> [])
    as Hne by discriminate.
  assert (NoDup (map query_id (queries acme))) as Hnd
      by (simpl; repeat constructor; simpl; intuition discriminate).
  destruct (postQueries_outcomes accept acme 1 _ Hne Hnd)
    as [(_ & _ & row & _ & F)|[(_ & _ & K)|(created & E & _ & _ & T & _)]].
  - discriminate F.
  - discriminate K.
  - exists created. split; [exact E|exact T].
Defined.

End CrudFacts.
